(** * Goa fire-truck feed: coordinate resolver, CSV normalizer, snapshot
    writer and daily track accumulator.

    A shallow embedding of [fetch-data.js] (CSV revision and JSON revision),
    [index.js] (token-based JSON revision), [track-creator.js] and [main.js],
    followed by the properties established about them.

    Modelling conventions.
    - A JavaScript number is a [jsnum]: NaN, an infinity, or an exact decimal
      [m * 10^e].  Every number of the program comes from a decimal literal
      (a CSV cell, a JSON literal, the argument of [parseFloat]) and is only
      compared, never computed with, so decimals are closed under everything
      the code does.  The rounding of a literal to binary64, and its overflow
      to an infinity, are not modelled.
    - A string is a [string] of 8-bit characters; white space and letter case
      are the ASCII ones.
    - A JavaScript object is an association list in [Object.entries] order
      (insertion order for the field names of the feed); [undefined] is
      [None].
    - The file system, the module variable [parsedFireTrucks] and the debug
      log are fields of an explicit [world]; a thrown exception is [None] or
      a dedicated constructor, as stated at each function.
    - A daily track file holds text that does not parse, a track collection,
      or text that parses to a value on which [updateDailyGpxTracks] throws
      because it has no array under [features] or nothing that takes a
      property under [metadata].  The entries of [features] are features of
      the shape the program writes; entries of another shape are not
      modelled. *)

From Stdlib Require Import ZArith String Ascii List Bool Lia DecimalString.
From stdpp Require Import base option list strings gmap.

Local Open Scope Z_scope.

(** ** The host language: numbers, JSON values, string methods *)

Module Js.

(** A Number value. *)
Inductive jsnum : Type :=
| NaN
| Infinity (negative : bool)
| Finite (m : Z) (e : Z).

(** A JSON value, which is also every value a record field can hold. *)
#[warnings="-register-all"]
Inductive json : Type :=
| JNull
| JBool (b : bool)
| JNum (n : jsnum)
| JStr (s : string)
| JArr (items : list json)
| JObj (fields : list (string * json)).

(** Comparison of two decimals [m1 * 10^e1] and [m2 * 10^e2]. *)
Definition decCompare (m1 e1 m2 e2 : Z) : comparison :=
  let e := Z.min e1 e2 in
  (m1 * 10 ^ (e1 - e)) ?= (m2 * 10 ^ (e2 - e)).

(** [a >= b], [a <= b], [a === b], [a !== b] on numbers. *)
Definition numLe (a b : jsnum) : bool :=
  match a, b with
  | NaN, _ | _, NaN => false
  | Infinity true, _ => true
  | _, Infinity false => true
  | Infinity false, _ => false
  | _, Infinity true => false
  | Finite m1 e1, Finite m2 e2 =>
      match decCompare m1 e1 m2 e2 with Gt => false | _ => true end
  end.

Definition numGe (a b : jsnum) : bool := numLe b a.

Definition numEq (a b : jsnum) : bool :=
  match a, b with
  | Infinity s1, Infinity s2 => Bool.eqb s1 s2
  | Finite m1 e1, Finite m2 e2 =>
      match decCompare m1 e1 m2 e2 with Eq => true | _ => false end
  | _, _ => false
  end.

Definition numNe (a b : jsnum) : bool := negb (numEq a b).

Definition isNaN (n : jsnum) : bool :=
  match n with NaN => true | _ => false end.

Definition isFinite (n : jsnum) : bool :=
  match n with Finite _ _ => true | _ => false end.

(** Truthiness ([!value] is its negation); [None] is [undefined]. *)
Definition truthy (v : json) : bool :=
  match v with
  | JNull => false
  | JBool b => b
  | JNum NaN => false
  | JNum (Infinity _) => true
  | JNum (Finite m _) => negb (m =? 0)
  | JStr s => negb (String.eqb s EmptyString)
  | JArr _ | JObj _ => true
  end.

Definition truthyU (v : option json) : bool :=
  match v with Some j => truthy j | None => false end.

(** [a || b] where [a] may be undefined. *)
Definition orElse (a : option json) (b : json) : json :=
  match a with
  | Some j => if truthy j then j else b
  | None => b
  end.

(** *** Characters *)

Definition isWhite (c : ascii) : bool :=
  let n := nat_of_ascii c in
  ((9 <=? n) && (n <=? 13))%nat || (n =? 32)%nat.

Definition isDigit (c : ascii) : bool :=
  let n := nat_of_ascii c in ((48 <=? n) && (n <=? 57))%nat.

Definition digitVal (c : ascii) : Z := Z.of_nat (nat_of_ascii c) - 48.

Definition lowerChar (c : ascii) : ascii :=
  let n := nat_of_ascii c in
  if ((65 <=? n) && (n <=? 90))%nat then ascii_of_nat (n + 32) else c.

(** *** String methods *)

(** [s.startsWith(p)] *)
Definition startsWith (s p : string) : bool := String.prefix p s.

(** [s.includes(sub)] *)
Fixpoint includes (s sub : string) : bool :=
  String.prefix sub s ||
  match s with
  | EmptyString => false
  | String _ rest => includes rest sub
  end.

(** [s.endsWith(p)] *)
Fixpoint endsWith (s p : string) : bool :=
  String.eqb s p ||
  match s with
  | EmptyString => false
  | String _ rest => endsWith rest p
  end.

(** [s.toLowerCase()] *)
Fixpoint toLowerCase (s : string) : string :=
  match s with
  | EmptyString => EmptyString
  | String c rest => String (lowerChar c) (toLowerCase rest)
  end.

(** [s.replace(',', '.')]: a string pattern replaces the first occurrence
    only. *)
Fixpoint replaceComma (s : string) : string :=
  match s with
  | EmptyString => EmptyString
  | String c rest =>
      if Ascii.eqb c "," then String "." rest else String c (replaceComma rest)
  end.

(** [s.substring(a, b)]: the arguments are clamped to the length and swapped
    when [a > b]. *)
Definition substring (s : string) (a b : nat) : string :=
  let n := String.length s in
  let a' := Nat.min a n in
  let b' := Nat.min b n in
  let lo := Nat.min a' b' in
  let hi := Nat.max a' b' in
  String.substring lo (hi - lo) s.

(** [s.split(',')] *)
Fixpoint splitAux (sep : ascii) (s : string) (cur : string) : list string :=
  match s with
  | EmptyString => [String.rev cur]
  | String c rest =>
      if Ascii.eqb c sep then String.rev cur :: splitAux sep rest EmptyString
      else splitAux sep rest (String c cur)
  end.

Definition split (sep : ascii) (s : string) : list string :=
  splitAux sep s EmptyString.

(** [s.split(/\r?\n/)] *)
Fixpoint splitLinesAux (s : string) (cur : string) : list string :=
  match s with
  | EmptyString => [String.rev cur]
  | String c rest =>
      if Ascii.eqb c "010" then String.rev cur :: splitLinesAux rest EmptyString
      else
        match rest with
        | String c' rest' =>
            if Ascii.eqb c "013" && Ascii.eqb c' "010"
            then String.rev cur :: splitLinesAux rest' EmptyString
            else splitLinesAux rest (String c cur)
        | EmptyString => splitLinesAux rest (String c cur)
        end
  end.

Definition splitLines (s : string) : list string :=
  splitLinesAux s EmptyString.

(** [s.trim()] *)
Fixpoint trimStart (s : string) : string :=
  match s with
  | EmptyString => EmptyString
  | String c rest => if isWhite c then trimStart rest else s
  end.

Definition trim (s : string) : string :=
  String.rev (trimStart (String.rev (trimStart s))).

(** *** [parseFloat] on a string

    White space is trimmed from the start, then the longest prefix that is a
    decimal literal is read: an optional sign, then [Infinity] or digits with
    an optional fraction and an optional exponent; the exponent counts only
    when it has a digit.  What follows the literal is ignored.  No literal:
    NaN. *)

Fixpoint spanDigits (s : string) : list ascii * string :=
  match s with
  | EmptyString => ([], EmptyString)
  | String c rest =>
      if isDigit c
      then let '(ds, r) := spanDigits rest in (c :: ds, r)
      else ([], s)
  end.

Definition digitsToZ (ds : list ascii) : Z :=
  fold_left (fun acc c => acc * 10 + digitVal c) ds 0.

Definition readSign (s : string) : bool * string :=
  match s with
  | String "-" rest => (true, rest)
  | String "+" rest => (false, rest)
  | _ => (false, s)
  end.

Definition applySign (negative : bool) (z : Z) : Z :=
  if negative then - z else z.

Definition readExponent (s : string) : Z :=
  match s with
  | String c rest =>
      if Ascii.eqb c "e" || Ascii.eqb c "E" then
        let '(eneg, r) := readSign rest in
        let '(ds, _) := spanDigits r in
        match ds with
        | [] => 0
        | _ => applySign eneg (digitsToZ ds)
        end
      else 0
  | EmptyString => 0
  end.

Definition parseFloatStr (s : string) : jsnum :=
  let '(negative, s1) := readSign (trimStart s) in
  if String.prefix "Infinity" s1 then Infinity negative
  else
    let '(ip, s2) := spanDigits s1 in
    let '(fp, s3) :=
      match s2 with
      | String "." rest => spanDigits rest
      | _ => ([], s2)
      end in
    match ip, fp with
    | [], [] => NaN
    | _, _ =>
        Finite (applySign negative (digitsToZ (ip ++ fp)))
               (readExponent s3 - Z.of_nat (length fp))
    end.

(** *** [Number.prototype.toString]

    With [s] the digits of the number without trailing zeros, [k] their
    count and [n] the position of the decimal point ([value = 0.s * 10^n]):
    plain digits for [k <= n <= 21], a decimal point inside for
    [0 < n <= 21], leading [0.00] for [-6 < n <= 0], exponent notation
    otherwise. *)

Definition digitsOfZ (z : Z) : list ascii :=
  list_ascii_of_string (NilZero.string_of_uint (N.to_uint (Z.to_N z))).

Fixpoint dropZeros (ds : list ascii) : list ascii :=
  match ds with
  | c :: rest => if Ascii.eqb c "0" then dropZeros rest else ds
  | [] => []
  end.

Definition numToString (x : jsnum) : string :=
  match x with
  | NaN => "NaN"
  | Infinity false => "Infinity"
  | Infinity true => "-Infinity"
  | Finite m e =>
      if m =? 0 then "0"
      else
        let ds := match digitsOfZ (Z.abs m) with [] => ["0"%char] | l => l end in
        let s := rev (dropZeros (rev ds)) in
        let k := Z.of_nat (length s) in
        let n := Z.of_nat (length ds) + e in
        let body :=
          if (k <=? n) && (n <=? 21) then
            s ++ repeat "0"%char (Z.to_nat (n - k))
          else if (0 <? n) && (n <=? 21) then
            take (Z.to_nat n) s ++ "."%char :: drop (Z.to_nat n) s
          else if (-6 <? n) && (n <=? 0) then
            "0"%char :: "."%char :: repeat "0"%char (Z.to_nat (- n)) ++ s
          else
            let ex := n - 1 in
            let es :=
              (if ex <? 0 then "-"%char else "+"%char)
              :: digitsOfZ (Z.abs ex) in
            match s with
            | [d] => d :: "e"%char :: es
            | d :: rest => d :: "."%char :: rest ++ "e"%char :: es
            | [] => []
            end in
        string_of_list_ascii (if m <? 0 then "-"%char :: body else body)
  end.

(** *** [ToString] of a value ([String(v)], [v.toString()], and the implicit
    conversion of a property key or of the argument of [parseFloat]) *)

Fixpoint joinComma (parts : list string) : string :=
  match parts with
  | [] => EmptyString
  | [p] => p
  | p :: rest => String.append p (String "," (joinComma rest))
  end.

Fixpoint toStr (v : json) : string :=
  match v with
  | JNull => "null"
  | JBool true => "true"
  | JBool false => "false"
  | JNum n => numToString n
  | JStr s => s
  | JArr items =>
      joinComma
        (List.map (fun x => match x with JNull => EmptyString | _ => toStr x end)
                  items)
  | JObj _ => "[object Object]"
  end.

(** [parseFloat(v)] *)
Definition parseFloat (v : json) : jsnum := parseFloatStr (toStr v).

(** [parseFloat(v)] where [v] may be undefined ([parseFloat("undefined")]). *)
Definition parseFloatU (v : option json) : jsnum :=
  match v with Some j => parseFloat j | None => NaN end.

End Js.

Import Js.
Local Open Scope string_scope.
Local Open Scope list_scope.

(** ** Coordinate resolver ([extractCoordinates], [isValidGoaCoordinate]) *)

Module Resolver.

(** A raw record: field name to value, in [Object.entries] order. *)
Definition row : Type := list (string * json).

(** [row[k]] *)
Fixpoint getField (r : row) (k : string) : option json :=
  match r with
  | [] => None
  | (k', v) :: rest => if String.eqb k' k then Some v else getField rest k
  end.

(** [row[k] = v]: an existing field keeps its place. *)
Fixpoint setField (r : row) (k : string) (v : json) : row :=
  match r with
  | [] => [(k, v)]
  | (k', v') :: rest =>
      if String.eqb k' k then (k', v) :: rest else (k', v') :: setField rest k v
  end.

(** The second argument of [isValidGoaCoordinate]: ['lat'], ['lng'], or
    anything else. *)
Inductive coordType : Type := TLat | TLng | TOther.

Definition latMin : jsnum := Finite 145 (-1).
Definition latMax : jsnum := Finite 160 (-1).
Definition lngMin : jsnum := Finite 735 (-1).
Definition lngMax : jsnum := Finite 745 (-1).

Definition inLatRange (num : jsnum) : bool := numGe num latMin && numLe num latMax.
Definition inLngRange (num : jsnum) : bool := numGe num lngMin && numLe num lngMax.

(** [value.toString().replace(',', '.')] followed by [parseFloat]. *)
Definition cleanParse (value : json) : jsnum :=
  parseFloatStr (replaceComma (toStr value)).

Definition isValidGoaCoordinate (value : option json) (type : coordType) : bool :=
  match value with
  | None => false
  | Some v =>
      if negb (truthy v) then false
      else
        let num := match v with JNum n => n | _ => cleanParse v end in
        if isNaN num then false
        else
          match type with
          | TLat => inLatRange num
          | TLng => inLngRange num
          | TOther => inLatRange num || inLngRange num
          end
  end.

(** The object returned by [extractCoordinates]: [{ valid: false }] or
    [{ valid: true, lat, lng, source }]. *)
Inductive coordinates : Type :=
| Invalid
| Valid (lat lng : jsnum) (source : string).

(** [row['Vehicle_No'] === id] *)
Definition vehicleIs (r : row) (id : string) : bool :=
  match getField r "Vehicle_No" with
  | Some (JStr s) => String.eqb s id
  | _ => false
  end.

(** Strategy 0, one block: the override of a known vehicle.  [None] when the
    block does not return. *)
Definition specialCase (r : row) (id latField lngField defLat defLng source : string)
  : option coordinates :=
  if vehicleIs r id then
    let lat := parseFloat (orElse (getField r latField) (JStr defLat)) in
    let lng := parseFloat (orElse (getField r lngField) (JStr defLng)) in
    if negb (isNaN lat) && negb (isNaN lng)
       && isValidGoaCoordinate (Some (JNum lat)) TLat
       && isValidGoaCoordinate (Some (JNum lng)) TLng
    then Some (Valid lat lng source)
    else None
  else None.

Definition specialCase0308 (r : row) : option coordinates :=
  specialCase r "GA 07 G 0308-FFHQ(QUICK RESPONSE)" "Door1" "Door2"
              "15.486755" "73.817429" "special_case_Door1_Door2".

Definition specialCase0350 (r : row) : option coordinates :=
  specialCase r "GA 07 G 0350-PNJ(WATER TENDER)" "IGN" "Power"
              "15.0236433" "74.04406" "special_case_IGN_Power".

(** Strategy 1, one block: a known pair of misplaced fields. *)
Definition knownPair (r : row) (latField lngField : string) : option coordinates :=
  if isValidGoaCoordinate (getField r latField) TLat
     && isValidGoaCoordinate (getField r lngField) TLng
  then Some (Valid (parseFloatU (getField r latField))
                   (parseFloatU (getField r lngField))
                   (latField +:+ "/" +:+ lngField))
  else None.

(** Strategy 2: the fields scanned pairwise. *)
Definition locationFields : list string :=
  ["Location"; "POI"; "Datetime"; "Latitude"; "Longitude"; "Status"; "Speed"].

(** One iteration of the loop over adjacent fields: what it pushes on
    [coordPairs], if anything. *)
Definition windowPair (r : row) (field1 field2 : string) : option coordinates :=
  if negb (truthyU (getField r field1)) || negb (truthyU (getField r field2))
  then None
  else
    let val1 := parseFloatU (getField r field1) in
    let val2 := parseFloatU (getField r field2) in
    if negb (isNaN val1) && negb (isNaN val2) then
      if isValidGoaCoordinate (Some (JNum val1)) TLat
         && isValidGoaCoordinate (Some (JNum val2)) TLng
      then Some (Valid val1 val2 (field1 +:+ "/" +:+ field2))
      else if isValidGoaCoordinate (Some (JNum val1)) TLng
              && isValidGoaCoordinate (Some (JNum val2)) TLat
      then Some (Valid val2 val1 (field2 +:+ "/" +:+ field1))
      else None
    else None.

(** [coordPairs] after the loop over [fields]. *)
Fixpoint coordPairs (r : row) (fields : list string) : list coordinates :=
  match fields with
  | field1 :: rest =>
      match rest with
      | field2 :: _ =>
          match windowPair r field1 field2 with
          | Some c => c :: coordPairs r rest
          | None => coordPairs r rest
          end
      | [] => []
      end
  | [] => []
  end.

(** Strategy 3: the variables of the scan over all fields. *)
Record scanState : Type := mkScan {
  bestLat : option jsnum;
  bestLng : option jsnum;
  latConfidence : Z;
  lngConfidence : Z;
  latField : string;
  lngField : string
}.

Definition scanInit : scanState :=
  mkScan None None 0 0 EmptyString EmptyString.

Definition latScore (field : string) : Z :=
  if includes (toLowerCase field) "lat" then 10
  else if String.eqb field "IGN" || String.eqb field "Door1" then 8
  else 5.

Definition lngScore (field : string) : Z :=
  if includes (toLowerCase field) "lon" then 10
  else if String.eqb field "Power" || String.eqb field "Door2" then 8
  else 5.

(** The body of [for (const [field, value] of Object.entries(row))]. *)
Definition scanStep (st : scanState) (entry : string * json) : scanState :=
  let '(field, value) := entry in
  if negb (truthy value) then st
  else
    let num := cleanParse value in
    if isNaN num then st
    else
      let st1 :=
        if isValidGoaCoordinate (Some (JNum num)) TLat then
          let confidence := latScore field in
          if (latConfidence st <? confidence)%Z then
            mkScan (Some num) (bestLng st) confidence (lngConfidence st)
                   field (lngField st)
          else st
        else st in
      if isValidGoaCoordinate (Some (JNum num)) TLng then
        let confidence := lngScore field in
        if (lngConfidence st1 <? confidence)%Z then
          mkScan (bestLat st1) (Some num) (latConfidence st1) confidence
                 (latField st1) field
        else st1
      else st1.

Definition globalScan (r : row) : scanState := fold_left scanStep r scanInit.

(** Strategies 1 to 3, in the order of the code. *)
Definition laterStrategies (r : row) : coordinates :=
  match knownPair r "Door1" "Door2" with
  | Some c => c
  | None =>
  match knownPair r "IGN" "Power" with
  | Some c => c
  | None =>
  match coordPairs r locationFields with
  | bestPair :: _ => bestPair
  | [] =>
      let st := globalScan r in
      match bestLat st, bestLng st with
      | Some lat, Some lng => Valid lat lng (latField st +:+ "/" +:+ lngField st)
      | _, _ => Invalid
      end
  end end end.

Definition extractCoordinates (r : row) : coordinates :=
  match specialCase0308 r with
  | Some c => c
  | None =>
  match specialCase0350 r with
  | Some c => c
  | None => laterStrategies r
  end end.

End Resolver.

(** ** CSV normalizer ([parseFiretruckCSV]) *)

Module Csv.
Import Resolver.

Definition quote : string := String "034" EmptyString.

(** The cell of one header: [values[index] || EmptyString] with one pair of
    surrounding quotes removed. *)
Definition cellValue (values : list string) : string :=
  let value := match values with v :: _ => v | [] => EmptyString end in
  if startsWith value quote && endsWith value quote
  then substring value 1 (String.length value - 1)
  else value.

(** [headers.forEach((header, index) => { ...; row[header] = value })].
    Assigning a string to [__proto__] creates no field. *)
Fixpoint fillRow (acc : row) (headers values : list string) : row :=
  match headers with
  | [] => acc
  | header :: hs =>
      let acc' :=
        if String.eqb header "__proto__" then acc
        else setField acc header (JStr (cellValue values)) in
      fillRow acc' hs (tl values)
  end.

Definition buildRow (headers : list string) (dataLine : string) : row :=
  fillRow [] headers (split "," dataLine).

Definition readHeaders (headers : list string) (headerLine : string) : list string :=
  if startsWith headerLine "Company,"
  then List.map trim (split "," headerLine)
  else headers.

(** What one header/data pair adds to [rows] and to [skippedRows]. *)
Definition emitRow (headers : list string) (dataLine : string) : list row * nat :=
  let r := buildRow headers dataLine in
  match extractCoordinates r with
  | Valid lat lng _ =>
      ([setField (setField r "Latitude" (JNum lat)) "Longitude" (JNum lng)], 0%nat)
  | Invalid => ([], 1%nat)
  end.

(** The [while (currentIndex < lines.length)] loop, from the lines not yet
    consumed: the rows pushed and the rows skipped. *)
Fixpoint parseBlocks (headers : list string) (lines : list string) : list row * nat :=
  match lines with
  | [] => ([], 0%nat)
  | headerLine :: rest =>
      let headers' := readHeaders headers headerLine in
      match rest with
      | [] => ([], 0%nat)
      | dataLine :: rest' =>
          if includes dataLine "No Data Found" then ([], 0%nat)
          else
            let '(rows1, skipped1) := emitRow headers' dataLine in
            let '(rows2, skipped2) := parseBlocks headers' rest' in
            ((rows1 ++ rows2)%list, (skipped1 + skipped2)%nat)
      end
  end.

(** [csvText.split(/\r?\n/).filter(line => line.trim().length > 0)] *)
Definition nonEmptyLines (csvText : string) : list string :=
  List.filter (fun line => negb (String.length (trim line) =? 0)%nat)
              (splitLines csvText).

Definition parseFiretruckCSV (csvText : string) : list row :=
  if String.eqb csvText EmptyString then []
  else fst (parseBlocks [] (nonEmptyLines csvText)).

End Csv.

(** ** Persisted files, the debug log and the world *)

Module Files.
Import Resolver.

(** A point of a track: [[longitude, latitude]]. *)
Definition point : Type := (jsnum * jsnum)%type.

(** The [properties] of a track feature. *)
Record trackProps : Type := mkProps {
  Vehicle_No : json;
  Vehicle_Name : json;
  Branch : json;
  created : json;
  lastUpdated : json
}.

(** A track feature: [{ type, geometry: { type, coordinates }, properties }]. *)
Record feature : Type := mkFeature {
  featureType : string;
  geometryType : string;
  coordinates : list point;
  properties : trackProps
}.

(** The [metadata] of a daily track collection; [lastUpdated] and [count]
    are absent until the first write. *)
Record trackMeta : Type := mkMeta {
  date : string;
  source : string;
  description : string;
  metaLastUpdated : option string;
  count : option nat
}.

(** A daily track collection. *)
Record tracks : Type := mkTracks {
  collectionType : string;
  metadata : trackMeta;
  features : list feature
}.

(** The content of a daily track file:
    - text that [JSON.parse] rejects;
    - a track collection;
    - text that parses to a value without an array under [features], such
      as [{}], [null], [[]], a number, or an object whose [features] is
      [null];
    - text that parses to an object with an array of features, and with
      nothing that takes a property under [metadata]: it is absent, [null],
      or a primitive (the modules are in strict mode). *)
Inductive fileContent : Type :=
| Unparseable
| TrackFile (t : tracks)
| NoFeatures
| NoMetadata (fs : list feature).

(** A feature of the snapshot: a Point with [coordinates: [Longitude,
    Latitude]] and the remaining fields as [properties]. *)
Record pointFeature : Type := mkPoint {
  pointCoordinates : option json * option json;
  pointProperties : row
}.

(** The snapshot file. *)
Record snapshot : Type := mkSnapshot {
  snapshotType : string;
  snapshotTimestamp : string;
  snapshotSource : string;
  snapshotCount : nat;
  snapshotFeatures : list pointFeature
}.

(** What [debugLog] records, without the time prefix. *)
Inductive logEvent : Type :=
| LogLoadedTracks (today : string)
| LogTrackReadError
| LogCreatingTracks (today : string)
| LogSkippingVehicle (vehicleId : option json)
| LogTracksWritten (n : nat)
| LogTracksError
| LogTracksUpdated (path : string)
| LogTracksFailed
| LogParsedRecords
| LogNoVehicleData
| LogInvalidCoordinates (vehicleId : option json)
| LogFilteredOut (n : nat)
| LogSnapshotSaved
| LogFatal.

(** The state outside the functions: the snapshot file, the daily track
    files by file name, the exported variable [parsedFireTrucks], and the
    debug log, oldest entry first. *)
Record world : Type := mkWorld {
  snapshotFile : option snapshot;
  trackFiles : gmap string fileContent;
  parsedFireTrucks : list json;
  debugLog : list logEvent
}.

Definition logTo (w : world) (ev : list logEvent) : world :=
  mkWorld (snapshotFile w) (trackFiles w) (parsedFireTrucks w)
          (debugLog w ++ ev)%list.

Definition sourceLabel : string :=
  "Directorate of Fire Emergency Services, Govt. of Goa".

(** [getGpxFilename(date)] *)
Definition getGpxFilename (date : string) : string :=
  "goa-fire-trucks-gpx-" +:+ date +:+ ".geojson".

(** [v.k] for one of the field names the program reads, on any value:
    [None] is the TypeError of reading a property of [null]; [Some None] is
    [undefined]. *)
Definition getProp (v : json) (k : string) : option (option json) :=
  match v with
  | JNull => None
  | JObj fields => Some (getField fields k)
  | _ => Some None
  end.

End Files.

(** ** Track accumulator ([updateDailyGpxTracks]) *)

Module Tracks.
Import Resolver Files.

(** The clock as one call of [updateDailyGpxTracks] reads it: the date
    formatted as [yyyyMMdd], the ISO time read while the [k]-th truck is
    processed, and the ISO time read for the metadata. *)
Record trackEnv : Type := mkTrackEnv {
  today : string;
  truckTime : nat -> string;
  writeTime : string
}.

(** [isValidCoordinate(value)] on a number. *)
Definition isValidCoordinate (value : jsnum) : bool :=
  negb (isNaN value) && isFinite value.

(** The collection the function starts from when no file is loaded. *)
Definition freshTracks (today : string) : tracks :=
  mkTracks "FeatureCollection"
           (mkMeta today sourceLabel "Daily GPS tracks of fire trucks" None None)
           [].

(** [vehicleTrackMap[key] = index]: assigning a number to [__proto__]
    creates no property. *)
Definition mapSet (m : gmap string nat) (key : string) (index : nat) : gmap string nat :=
  if String.eqb key "__proto__" then m else <[key := index]> m.

(** [vehicleTrackMap.hasOwnProperty(key)]: [None] is the TypeError raised
    once a vehicle named [hasOwnProperty] has shadowed the method. *)
Definition hasOwnProperty (m : gmap string nat) (key : string) : option bool :=
  match m !! "hasOwnProperty" with
  | Some _ => None
  | None => Some (bool_decide (is_Some (m !! key)))
  end.

(** The map from vehicle to feature index built from the loaded features. *)
Fixpoint indexFeatures (m : gmap string nat) (index : nat) (fs : list feature)
  : gmap string nat :=
  match fs with
  | [] => m
  | f :: rest =>
      let m' :=
        if truthy (Vehicle_No (properties f))
        then mapSet m (toStr (Vehicle_No (properties f))) index
        else m in
      indexFeatures m' (S index) rest
  end.

(** The variables of the loop over the trucks. *)
Record accState : Type := mkAcc {
  accFeatures : list feature;
  accMap : gmap string nat;
  accLog : list logEvent
}.

(** [lastCoord[0] !== coords[0] || lastCoord[1] !== coords[1]] *)
Definition differs (lastCoord coords : point) : bool :=
  numNe (fst lastCoord) (fst coords) || numNe (snd lastCoord) (snd coords).

(** [feature.geometry.coordinates.push(coords); feature.properties.lastUpdated
    = timestamp] *)
Definition extend (f : feature) (coords : point) (timestamp : json) : feature :=
  let p := properties f in
  mkFeature (featureType f) (geometryType f)
            (coordinates f ++ [coords])%list
            (mkProps (Vehicle_No p) (Vehicle_Name p) (Branch p) (created p)
                     timestamp).

Definition newFeature (vehicleId : json) (coords : point) (timestamp : json)
                      (name branch : option json) : feature :=
  mkFeature "Feature" "LineString" [coords]
            (mkProps vehicleId (orElse name (JStr EmptyString))
                     (orElse branch (JStr EmptyString)) timestamp timestamp).

(** The body of [trucks.forEach(truck => ...)]; [now] is what
    [new Date().toISOString()] returns there.  [None]: an exception. *)
Definition processTruck (now : string) (st : accState) (truck : json)
  : option accState :=
  match getProp truck "Vehicle_No", getProp truck "Datetime",
        getProp truck "Longitude", getProp truck "Latitude",
        getProp truck "Vehicle_Name", getProp truck "Branch" with
  | Some vehicleId, Some datetime, Some longitude, Some latitude,
    Some name, Some branch =>
      let timestamp := orElse datetime (JStr now) in
      let coords := (parseFloatU longitude, parseFloatU latitude) in
      match vehicleId with
      | Some id =>
          if negb (truthy id) || negb (isValidCoordinate (fst coords))
             || negb (isValidCoordinate (snd coords))
          then Some (mkAcc (accFeatures st) (accMap st)
                           (accLog st ++ [LogSkippingVehicle vehicleId])%list)
          else
            match hasOwnProperty (accMap st) (toStr id) with
            | None => None
            | Some true =>
                match accMap st !! toStr id with
                | Some featureIndex =>
                    match accFeatures st !! featureIndex with
                    | Some f =>
                        let append :=
                          match last (coordinates f) with
                          | None => true
                          | Some lastCoord => differs lastCoord coords
                          end in
                        if append
                        then Some (mkAcc (<[featureIndex := extend f coords timestamp]>
                                            (accFeatures st))
                                         (accMap st) (accLog st))
                        else Some st
                    | None => None
                    end
                | None => None
                end
            | Some false =>
                Some (mkAcc (accFeatures st
                               ++ [newFeature id coords timestamp name branch])%list
                            (mapSet (accMap st) (toStr id)
                                    (length (accFeatures st)))
                            (accLog st))
            end
      | None =>
          Some (mkAcc (accFeatures st) (accMap st)
                      (accLog st ++ [LogSkippingVehicle vehicleId])%list)
      end
  | _, _, _, _, _, _ => None
  end.

(** [trucks.forEach], from the [k]-th truck on.  [inr log]: an exception was
    thrown, with the log written until then. *)
Fixpoint forEachTruck (clock : nat -> string) (k : nat) (st : accState)
                      (trucks : list json) : accState + list logEvent :=
  match trucks with
  | [] => inl st
  | truck :: rest =>
      match processTruck (clock k) st truck with
      | Some st' => forEachTruck clock (S k) st' rest
      | None => inr (accLog st)
      end
  end.

(** The variable [tracksGeoJson] after the attempt to load the file: a
    collection; an object with features and without a [metadata] that takes
    a property; or a value without an array under [features]. *)
Inductive loaded : Type :=
| Collection (t : tracks)
| Headless (fs : list feature)
| NotCollection.

(** [tracksGeoJson] and the log entry after the attempt to load the file:
    what [JSON.parse] returns when it returns, the fresh collection
    otherwise. *)
Definition loadTracks (e : trackEnv) (files : gmap string fileContent)
  : loaded * logEvent :=
  match files !! getGpxFilename (today e) with
  | Some (TrackFile t) => (Collection t, LogLoadedTracks (today e))
  | Some (NoMetadata fs) => (Headless fs, LogLoadedTracks (today e))
  | Some NoFeatures => (NotCollection, LogLoadedTracks (today e))
  | Some Unparseable => (Collection (freshTracks (today e)), LogTrackReadError)
  | None => (Collection (freshTracks (today e)), LogCreatingTracks (today e))
  end.

(** The collection written at the end. *)
Definition finish (e : trackEnv) (t : tracks) (fs : list feature) : tracks :=
  mkTracks (collectionType t)
           (mkMeta (date (metadata t)) (source (metadata t))
                   (description (metadata t)) (Some (writeTime e))
                   (Some (length fs)))
           fs.

(** [updateDailyGpxTracks(trucks)]: the path written, or [None] for [null],
    and the world afterwards.  Every exception is caught by the outer
    [try]: it is logged and [null] is returned, before anything is
    written.
    - [tracksGeoJson.features.forEach] throws on a value without an array
      under [features];
    - the loop over the trucks throws as [forEachTruck] says;
    - [tracksGeoJson.metadata.lastUpdated = ...] throws, after the loop, on
      an object without a [metadata] that takes a property. *)
Definition updateDailyGpxTracks (e : trackEnv) (trucks : list json) (w : world)
  : option string * world :=
  let '(tracksGeoJson, ev) := loadTracks e (trackFiles w) in
  match tracksGeoJson with
  | NotCollection => (None, logTo w [ev; LogTracksError])
  | Headless fs =>
      let st := mkAcc fs (indexFeatures ∅ 0 fs) [ev] in
      match forEachTruck (truckTime e) 0 st trucks with
      | inl st' => (None, logTo w (accLog st' ++ [LogTracksError])%list)
      | inr log => (None, logTo w (log ++ [LogTracksError])%list)
      end
  | Collection t =>
      let st := mkAcc (features t) (indexFeatures ∅ 0 (features t)) [ev] in
      match forEachTruck (truckTime e) 0 st trucks with
      | inl st' =>
          let written := finish e t (accFeatures st') in
          (Some (getGpxFilename (today e)),
           mkWorld (snapshotFile w)
                   (<[getGpxFilename (today e) := TrackFile written]> (trackFiles w))
                   (parsedFireTrucks w)
                   (debugLog w ++ accLog st'
                      ++ [LogTracksWritten (length (accFeatures st'))])%list)
      | inr log =>
          (None, logTo w (log ++ [LogTracksError])%list)
      end
  end.

End Tracks.

(** ** Fetch orchestrator ([fetchAndCacheData], [createDailyTracks], [main]) *)

Module Pipeline.
Import Resolver Files Tracks.

(** The clock as one call of [fetchAndCacheData] reads it. *)
Record fetchEnv : Type := mkFetchEnv {
  snapshotTime : string;
  tracksEnv : trackEnv
}.

(** What the network steps deliver: an exception (transport error, bad
    status, no token, a body that is not JSON) or the parsed body. *)
Inductive fetched : Type :=
| FetchFailed
| Fetched (jsonData : json).

(** How a function of the run ends: [process.exit(1)], or a return. *)
Inductive outcome (A : Type) : Type :=
| Exit1 (w : world)
| Returned (a : A) (w : world).
Arguments Exit1 {A} w.
Arguments Returned {A} a w.

(** [v.k] where [v] is truthy or undefined. *)
Definition member (v : option json) (k : string) : option json :=
  match v with
  | Some (JObj fields) => getField fields k
  | _ => None
  end.

Definition isArray (v : json) : bool :=
  match v with JArr _ => true | _ => false end.

(** The rows located in the body by [index.js], with the entry logged. *)
Definition vehicleRows (jsonData : json) : json * logEvent :=
  let root := member (Some jsonData) "root" in
  let data := member (Some jsonData) "data" in
  if truthy jsonData && truthyU root && truthyU (member root "VehicleData") then
    (default JNull (member root "VehicleData"), LogParsedRecords)
  else if truthy jsonData && isArray jsonData then
    (jsonData, LogParsedRecords)
  else if truthy jsonData && truthyU data then
    (match data with
     | Some (JArr items) => JArr items
     | _ => orElse (member data "VehicleData") (JArr [])
     end, LogParsedRecords)
  else (JArr [], LogNoVehicleData).

(** The rows located in the body by the JSON revision of [fetch-data.js]. *)
Definition rootVehicleData (jsonData : json) : json * logEvent :=
  let root := member (Some jsonData) "root" in
  if truthy jsonData && truthyU root && truthyU (member root "VehicleData") then
    (default JNull (member root "VehicleData"), LogParsedRecords)
  else (JArr [], LogNoVehicleData).

(** [isValidGoaCoordinate(row.Latitude, 'lat') &&
    isValidGoaCoordinate(row.Longitude, 'lng')]; a [null] row has thrown
    before this is evaluated. *)
Definition rowIsValid (r : json) : bool :=
  match getProp r "Latitude", getProp r "Longitude" with
  | Some latitude, Some longitude =>
      isValidGoaCoordinate latitude TLat && isValidGoaCoordinate longitude TLng
  | _, _ => false
  end.

(** [if (row.Latitude) row.Latitude = parseFloat(row.Latitude)], the same
    for [Longitude]; [None]: the row is [null]. *)
Definition normalizeRow (r : json) : option json :=
  match r with
  | JNull => None
  | JObj fields =>
      let fields1 :=
        if truthyU (getField fields "Latitude")
        then setField fields "Latitude" (JNum (parseFloatU (getField fields "Latitude")))
        else fields in
      let fields2 :=
        if truthyU (getField fields1 "Longitude")
        then setField fields1 "Longitude" (JNum (parseFloatU (getField fields1 "Longitude")))
        else fields1 in
      Some (JObj fields2)
  | _ => Some r
  end.

(** [rows.forEach(row => ...)]: the rows as the loop leaves them ([None]
    when it throws) and the warnings logged. *)
Fixpoint normalizeRows (rows : list json) : option (list json) * list logEvent :=
  match rows with
  | [] => (Some [], [])
  | r :: rest =>
      match normalizeRow r with
      | None => (None, [])
      | Some r' =>
          let warning :=
            if rowIsValid r' then []
            else [LogInvalidCoordinates (default None (getProp r' "Vehicle_No"))] in
          let '(rest', warnings) := normalizeRows rest in
          (cons r' <$> rest', (warning ++ warnings)%list)
      end
  end.

(** [const { Latitude, Longitude, ...properties } = row] and the Point built
    from it; the rows that reach it are objects. *)
Definition toPointFeature (r : json) : pointFeature :=
  match r with
  | JObj fields =>
      mkPoint (getField fields "Longitude", getField fields "Latitude")
              (List.filter
                 (fun kv => negb (String.eqb (fst kv) "Latitude")
                            && negb (String.eqb (fst kv) "Longitude"))
                 fields)
  | _ => mkPoint (None, None) []
  end.

Definition makeSnapshot (e : fetchEnv) (validRows : list json) : snapshot :=
  mkSnapshot "FeatureCollection" (snapshotTime e) sourceLabel
             (length validRows) (List.map toPointFeature validRows).

(** [fetchAndCacheData()] after the network steps, for a given way of
    locating the rows in the body.  When the run exits, the world returned
    keeps the files and the log; the module variable goes with the process. *)
Definition fetchAndCacheDataFrom (locate : json -> json * logEvent)
    (e : fetchEnv) (f : fetched) (w : world) : outcome (list json) :=
  match f with
  | FetchFailed => Exit1 (logTo w [LogFatal])
  | Fetched jsonData =>
      let '(rows, located) := locate jsonData in
      match rows with
      | JArr items =>
          match normalizeRows items with
          | (Some rows', warnings) =>
              let validRows := List.filter rowIsValid rows' in
              let filtered :=
                if (length validRows <? length rows')%nat
                then [LogFilteredOut (length rows' - length validRows)]
                else [] in
              let w1 :=
                mkWorld (Some (makeSnapshot e validRows)) (trackFiles w) rows'
                        (debugLog w ++ located :: warnings ++ filtered
                           ++ [LogSnapshotSaved])%list in
              let '(path, w2) := updateDailyGpxTracks (tracksEnv e) validRows w1 in
              Returned validRows
                (logTo w2 [match path with
                           | Some p => LogTracksUpdated p
                           | None => LogTracksFailed
                           end])
          | (None, warnings) =>
              Exit1 (logTo w (located :: warnings ++ [LogFatal])%list)
          end
      | _ => Exit1 (logTo w [located; LogFatal])
      end
  end.

(** [fetchAndCacheData] of [index.js]. *)
Definition fetchAndCacheData : fetchEnv -> fetched -> world -> outcome (list json) :=
  fetchAndCacheDataFrom vehicleRows.

(** [fetchAndCacheData] of the JSON revision of [fetch-data.js], the module
    that [track-creator.js] and [main.js] import. *)
Definition fetchAndCacheDataV1 : fetchEnv -> fetched -> world -> outcome (list json) :=
  fetchAndCacheDataFrom rootVehicleData.

(** [createDailyTracks()] of [track-creator.js]; [eFetch] and [f] are used
    only when it has to fetch. *)
Definition createDailyTracks (eFetch : fetchEnv) (f : fetched) (e : trackEnv)
    (w : world) : outcome unit :=
  let update trucks w' :=
    let '(path, w2) := updateDailyGpxTracks e trucks w' in
    Returned tt (logTo w2 [match path with
                           | Some p => LogTracksUpdated p
                           | None => LogTracksFailed
                           end]) in
  if (0 <? length (parsedFireTrucks w))%nat then update (parsedFireTrucks w) w
  else
    match fetchAndCacheDataV1 eFetch f w with
    | Exit1 w' => Exit1 w'
    | Returned validRows w' => update validRows w'
    end.

(** [main()] of [main.js]: [fetchAndCacheData] then [createDailyTracks]. *)
Definition main (e1 : fetchEnv) (f1 : fetched) (e2 : fetchEnv) (f2 : fetched)
    (e : trackEnv) (w : world) : outcome unit :=
  match fetchAndCacheDataV1 e1 f1 w with
  | Exit1 w' => Exit1 w'
  | Returned _ w' => createDailyTracks e2 f2 e w'
  end.

(** The world of a process that has just started on the given files. *)
Definition startWorld (snap : option snapshot) (files : gmap string fileContent) : world :=
  mkWorld snap files [] [].

End Pipeline.

(** ** Authentication and the full run of [index.js]
    ([generateAccessToken], [fetchLiveData], [fetchAndCacheData]) *)

Module Auth.
Import Resolver Files Tracks Pipeline.

Definition API_USERNAME : string := "cnt-fire.goa@nic.in".
Definition API_PASSWORD : string := "cnt@123".

(** What the token endpoint gives back to one request: an exception (from
    [fetch], [response.text()] or [response.json()]), a status that is not
    ok, or a JSON body. *)
Inductive response : Type :=
| Threw
| NotOk
| Body (tokenData : json).

(** The error thrown by [generateAccessToken]. *)
Inductive authError : Type :=
| RequestThrew
| HttpFailed
| ServerRefused
| TokenMissing
| AllFailed.

(** The request bodies tried, in order. *)
Definition requestVariations : list json :=
  [JObj [("Username", JStr API_USERNAME); ("password", JStr API_PASSWORD)];
   JObj [("username", JStr API_USERNAME); ("password", JStr API_PASSWORD)];
   JObj [("Username", JStr API_USERNAME); ("Password", JStr API_PASSWORD)];
   JObj [("username", JStr API_USERNAME); ("Password", JStr API_PASSWORD)];
   JObj [("user", JStr API_USERNAME); ("pass", JStr API_PASSWORD)];
   JObj [("User", JStr API_USERNAME); ("Pass", JStr API_PASSWORD)]].

(** [v === 0 || v === '0'] and [v === 1 || v === '1'] *)
Definition isZero (v : option json) : bool :=
  match v with
  | Some (JNum n) => numEq n (Finite 0 0)
  | Some (JStr s) => String.eqb s "0"
  | _ => false
  end.

Definition isOne (v : option json) : bool :=
  match v with
  | Some (JNum n) => numEq n (Finite 1 0)
  | Some (JStr s) => String.eqb s "1"
  | _ => false
  end.

(** [a || b || ...] as far as [!token] can tell: the first truthy operand, or
    [None] when the chain ends on a falsy value. *)
Fixpoint firstTruthy (operands : list (option json)) : option json :=
  match operands with
  | [] => None
  | Some v :: rest => if truthy v then Some v else firstTruthy rest
  | None :: rest => firstTruthy rest
  end.

(** The loop over [Object.entries(tokenData)]: the first string that is
    truthy and sits under a key other than [result] and [message]. *)
Fixpoint firstStringField (fields : list (string * json)) : option json :=
  match fields with
  | [] => None
  | (key, value) :: rest =>
      if negb (String.eqb key "result") && negb (String.eqb key "message")
         && truthy value
         && match value with JStr _ => true | _ => false end
      then Some value
      else firstStringField rest
  end.

(** The token read from a body that is not [null], or [None] when [!token]
    holds after the four attempts to find one. *)
Definition tokenOf (tokenData : json) : option json :=
  let td := Some tokenData in
  let token1 :=
    firstTruthy [member td "token"; member td "Token";
                 member td "access_token"; member td "accessToken"] in
  let token2 :=
    match token1 with
    | Some _ => token1
    | None =>
        if truthyU (member td "data")
        then firstTruthy [member (member td "data") "token";
                          member (member td "data") "Token";
                          member td "data"]
        else None
    end in
  let token3 :=
    match token2 with
    | Some _ => token2
    | None =>
        match tokenData with
        | JStr _ => if truthy tokenData then Some tokenData else None
        | _ => None
        end
    end in
  match token3 with
  | Some _ => token3
  | None =>
      if isOne (member td "result") then
        match tokenData with
        | JObj fields => firstStringField fields
        | _ => None
        end
      else None
  end.

(** The [for] loop of [generateAccessToken] from the variations not yet
    tried; [server] answers each request body.  A failure of the last
    variation is thrown, one of an earlier variation moves on; an exception
    is rethrown at once. *)
Fixpoint tryVariations (server : json -> response) (variations : list json)
  : json + authError :=
  match variations with
  | [] => inr AllFailed
  | requestBody :: rest =>
      let next (e : authError) : json + authError :=
        match rest with
        | [] => inr e
        | _ :: _ => tryVariations server rest
        end in
      match server requestBody with
      | Threw => inr RequestThrew
      | NotOk => next HttpFailed
      | Body JNull => inr RequestThrew
      | Body tokenData =>
          if isZero (member (Some tokenData) "result") then next ServerRefused
          else
            match tokenOf tokenData with
            | Some token => inl token
            | None => next TokenMissing
            end
      end
  end.

Definition generateAccessToken (server : json -> response) : json + authError :=
  tryVariations server requestVariations.

(** [fetchAndCacheData] of [index.js] with its two network steps:
    [tokenServer] answers the token requests, [dataServer] is
    [fetchLiveData] as a function of the token. *)
Definition fetchAndCacheDataIndex (tokenServer : json -> response)
    (dataServer : json -> fetched) (e : fetchEnv) (w : world)
  : outcome (list json) :=
  match generateAccessToken tokenServer with
  | inr _ => Exit1 (logTo w [LogFatal])
  | inl token => fetchAndCacheData e (dataServer token) w
  end.

End Auth.

(** ** The run of the CSV revision of [fetch-data.js]
    ([rowsToGeoJSON], [fetchAndCacheData]) *)

Module CsvRun.
Import Resolver Csv Files Tracks Pipeline.

(** The [features] of [rowsToGeoJSON(rows)]. *)
Definition rowsToGeoJSON (rows : list row) : list pointFeature :=
  List.map (fun r => toPointFeature (JObj r)) rows.

(** What [fetch] and [response.text()] deliver. *)
Inductive fetchedText : Type :=
| TextFailed
| Text (csvText : string).

(** [fetchAndCacheData()] after the network step.  Of the log, the entries
    of the orchestrator are kept; those written while parsing are not. *)
Definition fetchAndCacheData (e : fetchEnv) (f : fetchedText) (w : world)
  : outcome unit :=
  match f with
  | TextFailed => Exit1 (logTo w [LogFatal])
  | Text csvText =>
      let rows := parseFiretruckCSV csvText in
      let result :=
        mkSnapshot "FeatureCollection" (snapshotTime e) sourceLabel
                   (length rows) (rowsToGeoJSON rows) in
      let w1 :=
        mkWorld (Some result) (trackFiles w) (parsedFireTrucks w)
                (debugLog w ++ [LogParsedRecords; LogSnapshotSaved]) in
      let '(path, w2) := updateDailyGpxTracks (tracksEnv e) (List.map JObj rows) w1 in
      Returned tt
        (logTo w2 [match path with
                   | Some p => LogTracksUpdated p
                   | None => LogTracksFailed
                   end])
  end.

End CsvRun.

Import Resolver Csv Files Tracks Pipeline.

(** * Vocabulary of the statements and sample inputs *)

Module Samples.

(** The two vehicles with an override. *)
Definition id0308 : string := "GA 07 G 0308-FFHQ(QUICK RESPONSE)".
Definition id0350 : string := "GA 07 G 0350-PNJ(WATER TENDER)".

(** A record of the first known vehicle with Door1 in range and Door2 out of
    range. *)
Definition row0308 : row :=
  [("Vehicle_No", JStr id0308); ("Door1", JStr "15.5"); ("Door2", JStr "80.0");
   ("Latitude", JStr "15.4"); ("Longitude", JStr "73.9")].

(** A record with coordinates in the conventional fields only. *)
Definition rowConventional : row :=
  [("Vehicle_No", JStr "X"); ("Latitude", JStr "15.5"); ("Longitude", JStr "73.9")].

(** A record whose coordinates only the scan over all fields finds. *)
Definition rowScattered : row :=
  [("Vehicle_No", JStr "V"); ("a", JStr "15,5"); ("Lat", JStr "15.6");
   ("b", JStr "74"); ("c", JNum (Finite 739 (-1)))].

(** The line feed. *)
Definition lf : string := String "010" EmptyString.

(** A header block directly followed by another header line. *)
Definition csvTwoHeaders : string :=
  "Company,Vehicle_No,Door1,Door2" +:+ lf +:+ "Company,V9,15.5,73.9".




(** A clock, a sighting, and the world of a process started on no file. *)
Definition day1 : trackEnv :=
  mkTrackEnv "20250501" (fun _ => "2025-05-01T10:00:00.000Z") "2025-05-01T10:00:01.000Z".

Definition day1Later : trackEnv :=
  mkTrackEnv "20250501" (fun _ => "2025-05-01T10:05:00.000Z") "2025-05-01T10:05:01.000Z".

Definition truckV1 : json :=
  JObj [("Vehicle_No", JStr "V1"); ("Vehicle_Name", JStr "TS101");
        ("Branch", JStr "Fire Force Headquarters");
        ("Datetime", JStr "01-05-2025 19:13:46");
        ("Latitude", JNum (Finite 15486662 (-6)));
        ("Longitude", JNum (Finite 73817413 (-6)))].

Definition pointV1 : point := (Finite 73817413 (-6), Finite 15486662 (-6)).

Definition emptyWorld : world := mkWorld None ∅ [] [].

(** The world after a first call has recorded [truckV1]. *)
Definition worldV1 : world := snd (updateDailyGpxTracks day1 [truckV1] emptyWorld).

(** The track that call has written for [V1]. *)
Definition featureV1 : feature :=
  mkFeature "Feature" "LineString" [pointV1]
            (mkProps (JStr "V1") (JStr "TS101") (JStr "Fire Force Headquarters")
                     (JStr "01-05-2025 19:13:46") (JStr "01-05-2025 19:13:46")).

(** A sighting, at the same point, of a vehicle that the feed names
    [__proto__]; the body of the feed that carries it; a later clock. *)
Definition truckProto : json :=
  JObj [("Vehicle_No", JStr "__proto__"); ("Vehicle_Name", JStr "TS101");
        ("Branch", JStr "Fire Force Headquarters");
        ("Datetime", JStr "01-05-2025 19:13:46");
        ("Latitude", JNum (Finite 15486662 (-6)));
        ("Longitude", JNum (Finite 73817413 (-6)))].

Definition protoPayload : json :=
  JObj [("root",
         JObj [("VehicleData",
                JArr [JObj [("Vehicle_No", JStr "__proto__");
                            ("Vehicle_Name", JStr "TS101");
                            ("Branch", JStr "Fire Force Headquarters");
                            ("Datetime", JStr "01-05-2025 19:13:46");
                            ("Latitude", JStr "15.486662");
                            ("Longitude", JStr "73.817413")]])])].

(** A world whose track file of the day does not parse. *)
Definition corruptWorld : world :=
  mkWorld None {[getGpxFilename "20250501" := Unparseable]} [] [].

(** The clock of a call of [fetchAndCacheData], and of a later call. *)
Definition day1Fetch : fetchEnv := mkFetchEnv "2025-05-01T10:00:00.500Z" day1.

Definition day1FetchLater : fetchEnv :=
  mkFetchEnv "2025-05-01T10:05:00.500Z" day1Later.

(** A body with one vehicle outside the bounding box (the sample record of
    the vendor's documentation). *)
Definition mumbaiPayload : json :=
  JObj [("root",
         JObj [("VehicleData",
                JArr [JObj [("Branch", JStr "Mumbai"); ("Vehicle_No", JStr "XT123");
                            ("Vehicle_Name", JStr "Truck");
                            ("Datetime", JStr "05-10-2020 23:13:09");
                            ("Latitude", JStr "19.2751911");
                            ("Longitude", JStr "72.9126444")]])])].

Definition mumbaiPoint : point := (Finite 729126444 (-7), Finite 192751911 (-7)).

(** A body whose conventional path holds a message instead of an array. *)
Definition noDataPayload : json :=
  JObj [("root", JObj [("VehicleData", JStr "No Data Found")])].

(** A body without any of the known locations. *)
Definition emptyPayload : json := JObj [("root", JObj [])].

End Samples.

Module Vocabulary.

(** A field is a latitude (longitude) candidate of the scan over all fields
    when its value is truthy and, with its first comma turned into a point,
    parses to a number in the latitude (longitude) range. *)
Definition latCandidate (entry : string * json) : bool :=
  truthy (snd entry) && inLatRange (cleanParse (snd entry)).

Definition lngCandidate (entry : string * json) : bool :=
  truthy (snd entry) && inLngRange (cleanParse (snd entry)).

(** [fld], holding the number [n], is the candidate of highest score in [r],
    the first one in iteration order among those of that score. *)
Definition chosen (cand : string * json -> bool) (score : string -> Z)
    (r : row) (fld : string) (n : jsnum) : Prop :=
  exists pre v post,
    r = (pre ++ (fld, v) :: post)%list
    /\ cand (fld, v) = true
    /\ n = cleanParse v
    /\ (forall x, In x pre -> cand x = true -> (score (fst x) < score fld)%Z)
    /\ (forall x, In x post -> cand x = true -> (score (fst x) <= score fld)%Z).

(** The three variables of one half of the scan after the fields [l]. *)
Definition bestSoFar (cand : string * json -> bool) (score : string -> Z)
    (l : row) (best : option jsnum) (conf : Z) (fld : string) : Prop :=
  match best with
  | None => conf = 0%Z /\ forall x, In x l -> cand x = false
  | Some n => conf = score fld /\ chosen cand score l fld n
  end.

(** Strict alternation, stated without the loop: the lines are taken two
    by two, the first of each pair in header position and the second in data
    position (a last line left alone is dropped). *)
Fixpoint pairs (lines : list string) : list (string * string) :=
  match lines with
  | headerLine :: rest =>
      match rest with
      | dataLine :: rest' => (headerLine, dataLine) :: pairs rest'
      | [] => []
      end
  | [] => []
  end.

(** The pairs before the first one whose data line holds the marker. *)
Fixpoint untilNoData (ps : list (string * string)) : list (string * string) :=
  match ps with
  | (headerLine, dataLine) :: rest =>
      if includes dataLine "No Data Found" then []
      else (headerLine, dataLine) :: untilNoData rest
  | [] => []
  end.

(** The rows of a list of pairs: each data line read under the headers of
    the latest line in header position that starts with [Company,]. *)
Fixpoint rowsOfPairs (headers : list string) (ps : list (string * string)) : list row :=
  match ps with
  | (headerLine, dataLine) :: rest =>
      let headers' := readHeaders headers headerLine in
      fst (emitRow headers' dataLine) ++ rowsOfPairs headers' rest
  | [] => []
  end.

(** Two points are the same: [===] on both coordinates. *)
Definition pointEq (p q : point) : bool :=
  numEq (fst p) (fst q) && numEq (snd p) (snd q).

(** [l'] is [l] followed by points appended one at a time, none of them
    equal to the point that preceded it when it was appended. *)
Inductive appendsFresh : list point -> list point -> Prop :=
| appends_none (l : list point) : appendsFresh l l
| appends_one (l l' : list point) (c : point) :
    appendsFresh l l' ->
    (forall p, last l' = Some p -> pointEq p c = false) ->
    appendsFresh l (l' ++ [c]).

(** [fs] comes from the features [fs0] of the loaded file by such appends,
    and by new features that started with one point. *)
Definition grownFrom (fs0 fs : list feature) : Prop :=
  (length fs0 <= length fs)%nat
  /\ (forall i f0, fs0 !! i = Some f0 ->
        exists f, fs !! i = Some f /\ appendsFresh (coordinates f0) (coordinates f))
  /\ (forall i f, (length fs0 <= i)%nat -> fs !! i = Some f ->
        exists c, appendsFresh [c] (coordinates f)).

(** The record [truck] is a sighting of the vehicle [id] at the point [c]:
    an object with a truthy [Vehicle_No] whose Longitude and Latitude parse
    to finite numbers. *)
Definition sighting (truck : json) (id : json) (c : point) : Prop :=
  exists fields,
    truck = JObj fields
    /\ getField fields "Vehicle_No" = Some id
    /\ truthy id = true
    /\ c = (parseFloatU (getField fields "Longitude"),
            parseFloatU (getField fields "Latitude"))
    /\ isValidCoordinate (fst c) = true
    /\ isValidCoordinate (snd c) = true.


(** The variables of the loop with the entries [l] logged beforehand. *)
Definition relog (l : list logEvent) (st : accState) : accState :=
  mkAcc (accFeatures st) (accMap st) (l ++ accLog st).

(** The run was ended by [process.exit(1)]. *)
Definition exits {A : Type} (o : outcome A) : bool :=
  match o with Exit1 _ => true | Returned _ _ => false end.

End Vocabulary.

Import Samples Vocabulary.

Module MoreVocabulary.
Import Auth.

(** The string holds no comma. *)
Fixpoint noComma (s : string) : bool :=
  match s with
  | EmptyString => true
  | String c rest => negb (Ascii.eqb c ",") && noComma rest
  end.

(** Every value of the record is a string without a comma, as in a record
    read from a CSV line. *)
Definition plainRow (r : row) : Prop :=
  Forall (fun kv => exists s, snd kv = JStr s /\ noComma s = true) r.

(** The result is a pair inside the bounding box. *)
Definition inBox (c : Resolver.coordinates) : Prop :=
  match c with
  | Valid lat lng _ => inLatRange lat = true /\ inLngRange lng = true
  | Invalid => False
  end.

(** The record carries numbers inside the bounding box in its Latitude and
    Longitude fields. *)
Definition hasBoxedPosition (r : row) : Prop :=
  exists lat lng,
    getField r "Latitude" = Some (JNum lat)
    /\ getField r "Longitude" = Some (JNum lng)
    /\ inLatRange lat = true
    /\ inLngRange lng = true.

(** What never changes in a track once it exists. *)
Definition sameIdentity (f f' : feature) : Prop :=
  featureType f' = featureType f
  /\ geometryType f' = geometryType f
  /\ Vehicle_No (properties f') = Vehicle_No (properties f)
  /\ Vehicle_Name (properties f') = Vehicle_Name (properties f)
  /\ Branch (properties f') = Branch (properties f)
  /\ created (properties f') = created (properties f).

(** [f'] is [f] untouched, or [f] with more points (and, possibly, a later
    [lastUpdated]). *)
Definition keptOrExtended (f f' : feature) : Prop :=
  sameIdentity f f'
  /\ (f' = f \/ (length (coordinates f) < length (coordinates f'))%nat).


(** The property key under which a track is filed. *)
Definition keyOf (f : feature) : string := toStr (Vehicle_No (properties f)).

(** The property key of the vehicle of a record, when it has one. *)
Definition truckKey (truck : json) : option string :=
  match getProp truck "Vehicle_No" with
  | Some (Some id) => if truthy id then Some (toStr id) else None
  | _ => None
  end.

(** Every track has a truthy vehicle that is not [__proto__], and no two
    tracks have the same vehicle. *)
Definition wellKeyed (fs : list feature) : Prop :=
  (forall i f, fs !! i = Some f ->
     truthy (Vehicle_No (properties f)) = true /\ keyOf f <> "__proto__")
  /\ (forall i j f g, fs !! i = Some f -> fs !! j = Some g ->
        keyOf f = keyOf g -> i = j).

(** The map files each track under its vehicle, and nothing else. *)
Definition indexes (m : gmap string nat) (fs : list feature) : Prop :=
  forall k i, m !! k = Some i <-> exists f, fs !! i = Some f /\ keyOf f = k.

(** The answer makes [generateAccessToken] move on to the next request body
    when there is one: a status that is not ok, a body whose [result] is 0,
    or a body in which no token is found. *)
Definition movesOn (r : response) : bool :=
  match r with
  | Threw => false
  | NotOk => true
  | Body JNull => false
  | Body tokenData =>
      isZero (member (Some tokenData) "result")
      || match tokenOf tokenData with Some _ => false | None => true end
  end.


(** The world in which a run ends, and the rows it returns. *)
Definition worldOf {A : Type} (o : outcome A) : world :=
  match o with Exit1 w => w | Returned _ w => w end.

Definition rowsOf (o : outcome (list json)) : list json :=
  match o with Exit1 _ => [] | Returned rows _ => rows end.

(** The Point has numbers of the bounding box as coordinates, and neither
    Latitude nor Longitude among its properties. *)
Definition boxedPoint (pf : pointFeature) : Prop :=
  exists lat lng,
    pointCoordinates pf = (Some (JNum lng), Some (JNum lat))
    /\ inLatRange lat = true
    /\ inLngRange lng = true
    /\ getField (pointProperties pf) "Latitude" = None
    /\ getField (pointProperties pf) "Longitude" = None.

(** A token endpoint that knows the field names [user] and [pass] only. *)
Definition userPassServer (requestBody : json) : response :=
  match member (Some requestBody) "user" with
  | Some _ => Body (JObj [("result", JNum (Finite 1 0)); ("token", JStr "abc")])
  | None => NotOk
  end.

(** The answer holds the token [t]. *)
Definition grants (r : response) (t : json) : Prop :=
  exists tokenData,
    r = Body tokenData
    /\ isZero (member (Some tokenData) "result") = false
    /\ tokenOf tokenData = Some t.

End MoreVocabulary.

Import Auth MoreVocabulary.

(** * Properties *)

(** ** Numbers and range checks *)

Section RangeFacts.

Lemma pow10_pos (k : Z) : (0 <= k -> 0 < 10 ^ k)%Z.
Proof. intros Hk. apply Z.pow_pos_nonneg; lia. Qed.



(** Zero is below every positive bound. *)
Lemma numGe_zero_pos (e m2 e2 : Z) : (0 < m2)%Z -> numGe (Finite 0 e) (Finite m2 e2) = false.
Proof.
  intros Hm. unfold numGe, numLe, decCompare.
  assert (Hp : (0 < 10 ^ (e2 - Z.min e2 e))%Z) by (apply pow10_pos; lia).
  rewrite Z.mul_0_l.
  destruct (Z.compare_spec (m2 * 10 ^ (e2 - Z.min e2 e)) 0) as [H | H | H];
    try reflexivity; nia.
Qed.

Lemma inLatRange_truthy (n : jsnum) : inLatRange n = true -> truthy (JNum n) = true.
Proof.
  destruct n as [| s | m e]; simpl; try discriminate; try reflexivity.
  intros H. destruct (Z.eqb_spec m 0) as [-> | Hne]; [| reflexivity].
  unfold inLatRange, latMin in H. rewrite numGe_zero_pos in H by lia. discriminate.
Qed.

Lemma inLngRange_truthy (n : jsnum) : inLngRange n = true -> truthy (JNum n) = true.
Proof.
  destruct n as [| s | m e]; simpl; try discriminate; try reflexivity.
  intros H. destruct (Z.eqb_spec m 0) as [-> | Hne]; [| reflexivity].
  unfold inLngRange, lngMin in H. rewrite numGe_zero_pos in H by lia. discriminate.
Qed.

Lemma inLatRange_not_NaN (n : jsnum) : inLatRange n = true -> isNaN n = false.
Proof. destruct n; simpl; [discriminate | reflexivity | reflexivity]. Qed.

Lemma inLngRange_not_NaN (n : jsnum) : inLngRange n = true -> isNaN n = false.
Proof. destruct n; simpl; [discriminate | reflexivity | reflexivity]. Qed.

(** On a number, [isValidGoaCoordinate] is the range test alone. *)
Lemma isValid_num_lat (n : jsnum) :
  isValidGoaCoordinate (Some (JNum n)) TLat = inLatRange n.
Proof.
  unfold isValidGoaCoordinate.
  destruct (inLatRange n) eqn:Hr.
  - rewrite (inLatRange_truthy n Hr), (inLatRange_not_NaN n Hr). reflexivity.
  - destruct (truthy (JNum n)); simpl; [| reflexivity].
    destruct (isNaN n); reflexivity.
Qed.

Lemma isValid_num_lng (n : jsnum) :
  isValidGoaCoordinate (Some (JNum n)) TLng = inLngRange n.
Proof.
  unfold isValidGoaCoordinate.
  destruct (inLngRange n) eqn:Hr.
  - rewrite (inLngRange_truthy n Hr), (inLngRange_not_NaN n Hr). reflexivity.
  - destruct (truthy (JNum n)); simpl; [| reflexivity].
    destruct (isNaN n); reflexivity.
Qed.

End RangeFacts.

(** ** The host functions on sample values *)

Section HostExamples.

Example parseFloat_stops_at_comma : parseFloatStr "15,486755" = Finite 15 0.
Proof. reflexivity. Qed.

Example parseFloat_prefix : parseFloatStr "  -15.486755e2xyz" = Finite (-15486755) (-4).
Proof. reflexivity. Qed.

Example parseFloat_no_literal :
  parseFloatStr "." = NaN /\ parseFloatStr "--" = NaN /\ parseFloatStr "ON" = NaN.
Proof. repeat split. Qed.

Example parseFloat_partial_forms :
  parseFloatStr "5." = Finite 5 0
  /\ parseFloatStr ".5e" = Finite 5 (-1)
  /\ parseFloatStr "1e-3" = Finite 1 (-3)
  /\ parseFloatStr "-Infinityx" = Infinity true.
Proof. repeat split. Qed.

Example numToString_forms :
  numToString (Finite 15486755 (-6)) = "15.486755"
  /\ numToString (Finite 1500 (-1)) = "150"
  /\ numToString (Finite (-5) (-3)) = "-0.005"
  /\ numToString (Finite 1 (-7)) = "1e-7"
  /\ numToString (Finite 1 21) = "1e+21"
  /\ numToString (Finite 1200 18) = "1.2e+21".
Proof. repeat split. Qed.

Example toStr_array :
  toStr (JArr [JNum (Finite 15 0); JNull; JStr "a"; JArr [JBool true]]) = "15,,a,true".
Proof. reflexivity. Qed.

Example replaceComma_first_only : replaceComma "1,2,3" = "1.2,3".
Proof. reflexivity. Qed.

Example substring_swaps : substring quote 1 0 = quote.
Proof. reflexivity. Qed.

Example splitLines_crlf :
  splitLines ("a" +:+ String "013" lf +:+ "b" +:+ lf +:+ String "013" "c")
  = ["a"; "b"; String "013" "c"].
Proof. reflexivity. Qed.

(** The CSV scenario of the feed: one header block, one data line. *)
Example csv_one_block :
  parseFiretruckCSV ("Company,Vehicle_No,Door1,Door2" +:+ lf
                     +:+ "ABC,GA07G0308,15.486755,73.817429")
  = [[("Company", JStr "ABC"); ("Vehicle_No", JStr "GA07G0308");
      ("Door1", JStr "15.486755"); ("Door2", JStr "73.817429");
      ("Latitude", JNum (Finite 15486755 (-6)));
      ("Longitude", JNum (Finite 73817429 (-6)))]].
Proof. reflexivity. Qed.

End HostExamples.

(** ** Coordinate resolver *)

Section ResolverFacts.

(** What one override block does, in terms of the range tests. *)
Lemma specialCase_spec (r : row) (id latF lngF defLat defLng src : string) :
  vehicleIs r id = true ->
  let lat := parseFloat (orElse (getField r latF) (JStr defLat)) in
  let lng := parseFloat (orElse (getField r lngF) (JStr defLng)) in
  specialCase r id latF lngF defLat defLng src
  = if inLatRange lat && inLngRange lng then Some (Valid lat lng src) else None.
Proof.
  intros Hid lat lng. unfold specialCase. rewrite Hid.
  fold lat lng. rewrite isValid_num_lat, isValid_num_lng.
  destruct (inLatRange lat) eqn:Hlat; destruct (inLngRange lng) eqn:Hlng; simpl.
  - now rewrite (inLatRange_not_NaN _ Hlat), (inLngRange_not_NaN _ Hlng).
  - now rewrite andb_false_r.
  - now rewrite andb_false_r.
  - now rewrite !andb_false_r.
Qed.

Lemma vehicleIs_other (r : row) (id id' : string) :
  vehicleIs r id = true -> id <> id' -> vehicleIs r id' = false.
Proof.
  unfold vehicleIs. destruct (getField r "Vehicle_No") as [[| | | s | |] |];
    try discriminate.
  intros H Hne. apply String.eqb_eq in H. subst s.
  now apply String.eqb_neq.
Qed.

Lemma specialCase_other (r : row) (id latF lngF defLat defLng src : string) :
  vehicleIs r id = false -> specialCase r id latF lngF defLat defLng src = None.
Proof. intros H. unfold specialCase. now rewrite H. Qed.

(** C1 (as amended).  For a record of a known vehicle, each override field is
    taken when it is present and non-empty and replaced by the vehicle's
    hard-coded default otherwise; both are read with [parseFloat]; the
    override is returned exactly when the two numbers are in the bounding
    box, and the later strategies decide otherwise. *)
Theorem C1_override_or_later_strategies (r : row) :
  (vehicleIs r id0308 = true ->
   let lat := parseFloat (orElse (getField r "Door1") (JStr "15.486755")) in
   let lng := parseFloat (orElse (getField r "Door2") (JStr "73.817429")) in
   (inLatRange lat && inLngRange lng = true ->
    extractCoordinates r = Valid lat lng "special_case_Door1_Door2")
   /\ (inLatRange lat && inLngRange lng = false ->
       extractCoordinates r = laterStrategies r))
  /\
  (vehicleIs r id0350 = true ->
   let lat := parseFloat (orElse (getField r "IGN") (JStr "15.0236433")) in
   let lng := parseFloat (orElse (getField r "Power") (JStr "74.04406")) in
   (inLatRange lat && inLngRange lng = true ->
    extractCoordinates r = Valid lat lng "special_case_IGN_Power")
   /\ (inLatRange lat && inLngRange lng = false ->
       extractCoordinates r = laterStrategies r)).
Proof.
  split; intros Hid lat lng.
  - pose proof (specialCase_spec r id0308 "Door1" "Door2" "15.486755" "73.817429"
                  "special_case_Door1_Door2" Hid) as Hs.
    simpl in Hs. fold lat lng in Hs.
    assert (H50 : specialCase0350 r = None).
    { apply specialCase_other. apply (vehicleIs_other r id0308); [exact Hid |].
      discriminate. }
    unfold extractCoordinates, specialCase0308. fold id0308. rewrite Hs.
    split; intros Hbox; rewrite Hbox; [reflexivity |].
    now rewrite H50.
  - pose proof (specialCase_spec r id0350 "IGN" "Power" "15.0236433" "74.04406"
                  "special_case_IGN_Power" Hid) as Hs.
    simpl in Hs. fold lat lng in Hs.
    assert (H08 : specialCase0308 r = None).
    { apply specialCase_other. apply (vehicleIs_other r id0350); [exact Hid |].
      discriminate. }
    unfold extractCoordinates. rewrite H08.
    unfold specialCase0350. fold id0350. rewrite Hs.
    split; intros Hbox; rewrite Hbox; reflexivity.
Qed.

Lemma C1_override_witness :
  vehicleIs row0308 id0308 = true
  /\ extractCoordinates row0308 = laterStrategies row0308.
Proof.
  split; [reflexivity |].
  apply (proj1 (C1_override_or_later_strategies row0308)); reflexivity.
Defined.

(** C1 (as stated) fails: a record of a known vehicle without its override
    fields does not fall back to the later strategies, which find nothing;
    the resolver returns the hard-coded coordinates. *)
Lemma C1_absent_fields_get_defaults :
  let r : row := [("Vehicle_No", JStr id0308)] in
  getField r "Door1" = None
  /\ getField r "Door2" = None
  /\ laterStrategies r = Invalid
  /\ extractCoordinates r
     = Valid (Finite 15486755 (-6)) (Finite 73817429 (-6)) "special_case_Door1_Door2".
Proof. repeat split. Qed.


(** The pairs pushed by the first three iterations of the sliding window
    precede the Latitude/Longitude pair. *)
Lemma coordPairs_locationFields (r : row) :
  windowPair r "Location" "POI" = None ->
  windowPair r "POI" "Datetime" = None ->
  windowPair r "Datetime" "Latitude" = None ->
  forall c, windowPair r "Latitude" "Longitude" = Some c ->
  exists rest, coordPairs r locationFields = c :: rest.
Proof.
  intros H1 H2 H3 c H4. unfold locationFields. simpl.
  rewrite H1, H2, H3, H4. eexists. reflexivity.
Qed.

(** C6 (as amended).  When the Latitude and Longitude fields are non-empty
    and read by [parseFloat] as a latitude and a longitude in range, and no
    earlier step of the cascade returns (no override, neither known pair,
    none of the window pairs before Latitude/Longitude), the resolver
    returns exactly these two numbers. *)
Theorem C6_conventional_fields_returned (r : row) :
  specialCase0308 r = None ->
  specialCase0350 r = None ->
  knownPair r "Door1" "Door2" = None ->
  knownPair r "IGN" "Power" = None ->
  windowPair r "Location" "POI" = None ->
  windowPair r "POI" "Datetime" = None ->
  windowPair r "Datetime" "Latitude" = None ->
  truthyU (getField r "Latitude") = true ->
  truthyU (getField r "Longitude") = true ->
  inLatRange (parseFloatU (getField r "Latitude")) = true ->
  inLngRange (parseFloatU (getField r "Longitude")) = true ->
  extractCoordinates r
  = Valid (parseFloatU (getField r "Latitude"))
          (parseFloatU (getField r "Longitude")) "Latitude/Longitude".
Proof.
  intros H08 H50 Hd Hi H1 H2 H3 Htl Htg Hlat Hlng.
  assert (Hw : windowPair r "Latitude" "Longitude"
               = Some (Valid (parseFloatU (getField r "Latitude"))
                             (parseFloatU (getField r "Longitude"))
                             "Latitude/Longitude")).
  { unfold windowPair. rewrite Htl, Htg. cbn [negb orb].
    rewrite (inLatRange_not_NaN _ Hlat), (inLngRange_not_NaN _ Hlng).
    cbn [negb andb].
    rewrite isValid_num_lat, isValid_num_lng, Hlat, Hlng. reflexivity. }
  destruct (coordPairs_locationFields r H1 H2 H3 _ Hw) as [rest Hrest].
  unfold extractCoordinates, laterStrategies.
  now rewrite H08, H50, Hd, Hi, Hrest.
Qed.

Lemma C6_conventional_witness :
  extractCoordinates rowConventional
  = Valid (Finite 155 (-1)) (Finite 739 (-1)) "Latitude/Longitude".
Proof.
  apply (C6_conventional_fields_returned rowConventional); reflexivity.
Defined.

(** C6 (as stated) fails: Latitude and Longitude hold a pair in range, and
    the resolver returns the pair found in Door1 and Door2. *)
Lemma C6_known_pair_wins :
  let r : row :=
    [("Vehicle_No", JStr "X"); ("Latitude", JStr "15.5"); ("Longitude", JStr "73.9");
     ("Door1", JStr "15.0"); ("Door2", JStr "74.0")] in
  isValidGoaCoordinate (getField r "Latitude") TLat = true
  /\ isValidGoaCoordinate (getField r "Longitude") TLng = true
  /\ parseFloatU (getField r "Latitude") = Finite 155 (-1)
  /\ parseFloatU (getField r "Longitude") = Finite 739 (-1)
  /\ extractCoordinates r = Valid (Finite 150 (-1)) (Finite 740 (-1)) "Door1/Door2".
Proof. repeat split. Qed.

End ResolverFacts.

(** ** The scan over all fields *)

Section GlobalScanFacts.

Lemma latScore_pos (f : string) : (0 < latScore f)%Z.
Proof. unfold latScore. repeat destruct (_ : bool); lia. Qed.

Lemma lngScore_pos (f : string) : (0 < lngScore f)%Z.
Proof. unfold lngScore. repeat destruct (_ : bool); lia. Qed.

(** One more field: the half of the scan either takes it or keeps its mind. *)
Lemma bestSoFar_step (cand : string * json -> bool) (score : string -> Z)
    (l : row) (best : option jsnum) (conf : Z) (fld f : string) (v : json) :
  (forall g, (0 < score g)%Z) ->
  bestSoFar cand score l best conf fld ->
  (cand (f, v) && (conf <? score f)%Z = true ->
   bestSoFar cand score (l ++ [(f, v)]) (Some (cleanParse v)) (score f) f)
  /\ (cand (f, v) && (conf <? score f)%Z = false ->
      bestSoFar cand score (l ++ [(f, v)]) best conf fld).
Proof.
  intros Hpos Hinv. split; intros Htake.
  - apply andb_true_iff in Htake as [Hc Hlt]. apply Z.ltb_lt in Hlt.
    split; [reflexivity |].
    exists l, v, []. repeat split; try assumption.
    + intros x Hx Hcx.
      destruct best as [n |]; simpl in Hinv.
      * destruct Hinv as [Hconf (pre & v0 & post & Hl & _ & _ & Hpre & Hpost)].
        subst l conf. apply in_app_or in Hx as [Hx | [Hx | Hx]].
        -- specialize (Hpre x Hx Hcx). lia.
        -- subst x. simpl. lia.
        -- specialize (Hpost x Hx Hcx). lia.
      * destruct Hinv as [_ Hnone]. rewrite (Hnone x Hx) in Hcx. discriminate.
    + intros x [].
  - destruct best as [n |]; simpl in Hinv |- *.
    + destruct Hinv as [Hconf (pre & v0 & post & Hl & Hc & Hn & Hpre & Hpost)].
      split; [exact Hconf |].
      exists pre, v0, (post ++ [(f, v)])%list. repeat split; try assumption.
      * subst l. now rewrite <- app_assoc.
      * intros x Hx Hcx. apply in_app_or in Hx as [Hx | [Hx | []]].
        -- now apply Hpost.
        -- subst x. simpl. rewrite Hcx in Htake. simpl in Htake.
           apply Z.ltb_ge in Htake. lia.
    + destruct Hinv as [Hconf Hnone]. split; [exact Hconf |].
      intros x Hx. apply in_app_or in Hx as [Hx | [Hx | []]]; [now apply Hnone |].
      subst x. destruct (cand (f, v)) eqn:Hc; [| reflexivity].
      simpl in Htake. apply Z.ltb_ge in Htake. specialize (Hpos f). lia.
Qed.

(** The latitude half and the longitude half of [scanStep]. *)
Lemma scanStep_lat (st : scanState) (f : string) (v : json) :
  let st' := scanStep st (f, v) in
  let take := latCandidate (f, v) && (latConfidence st <? latScore f)%Z in
  bestLat st' = (if take then Some (cleanParse v) else bestLat st)
  /\ latConfidence st' = (if take then latScore f else latConfidence st)
  /\ latField st' = (if take then f else latField st).
Proof.
  unfold scanStep, latCandidate. cbn [snd fst].
  destruct (truthy v); cbn [negb andb]; [| now repeat split].
  rewrite isValid_num_lat, isValid_num_lng.
  destruct (isNaN (cleanParse v)) eqn:Hnan.
  - destruct (inLatRange (cleanParse v)) eqn:Hr; [| now repeat split].
    rewrite (inLatRange_not_NaN _ Hr) in Hnan. discriminate.
  - destruct (inLatRange (cleanParse v)); cbn [andb];
      destruct (latConfidence st <? latScore f)%Z;
      destruct (inLngRange (cleanParse v)); cbn [lngConfidence];
      repeat match goal with |- context [if ?b then _ else _] => destruct b end;
      now repeat split.
Qed.

Lemma scanStep_lng (st : scanState) (f : string) (v : json) :
  let st' := scanStep st (f, v) in
  let take := lngCandidate (f, v) && (lngConfidence st <? lngScore f)%Z in
  bestLng st' = (if take then Some (cleanParse v) else bestLng st)
  /\ lngConfidence st' = (if take then lngScore f else lngConfidence st)
  /\ lngField st' = (if take then f else lngField st).
Proof.
  unfold scanStep, lngCandidate. cbn [snd fst].
  destruct (truthy v); cbn [negb andb]; [| now repeat split].
  rewrite isValid_num_lat, isValid_num_lng.
  destruct (isNaN (cleanParse v)) eqn:Hnan.
  - destruct (inLngRange (cleanParse v)) eqn:Hr; [| now repeat split].
    rewrite (inLngRange_not_NaN _ Hr) in Hnan. discriminate.
  - destruct (inLatRange (cleanParse v)); cbn [andb];
      destruct (latConfidence st <? latScore f)%Z;
      destruct (inLngRange (cleanParse v)); cbn [lngConfidence andb];
      destruct (lngConfidence st <? lngScore f)%Z; now repeat split.
Qed.

(** After any fields, each half of the scan holds the first candidate of
    highest score, or nothing when there is no candidate. *)
Lemma globalScan_invariant (r : row) :
  let st := globalScan r in
  bestSoFar latCandidate latScore r (bestLat st) (latConfidence st) (latField st)
  /\ bestSoFar lngCandidate lngScore r (bestLng st) (lngConfidence st) (lngField st).
Proof.
  unfold globalScan. induction r as [| [f v] l IH] using rev_ind.
  - split; split; try reflexivity; intros x [].
  - rewrite fold_left_app. cbn [fold_left].
    set (st := fold_left scanStep l scanInit) in *.
    destruct IH as [IHlat IHlng].
    destruct (scanStep_lat st f v) as (E1 & E2 & E3).
    destruct (scanStep_lng st f v) as (E4 & E5 & E6).
    destruct (bestSoFar_step _ _ _ _ _ _ f v latScore_pos IHlat) as [Ha Hb].
    destruct (bestSoFar_step _ _ _ _ _ _ f v lngScore_pos IHlng) as [Hc Hd].
    rewrite E1, E2, E3, E4, E5, E6. clear E1 E2 E3 E4 E5 E6.
    split.
    + destruct (latCandidate (f, v) && (latConfidence st <? latScore f)%Z);
        [now apply Ha | now apply Hb].
    + destruct (lngCandidate (f, v) && (lngConfidence st <? lngScore f)%Z);
        [now apply Hc | now apply Hd].
Qed.

(** C5.  When no earlier step of the cascade returns and the record has a
    latitude candidate and a longitude candidate, the resolver returns a
    result; its latitude comes from the latitude candidate of highest score
    (10 for a name containing lat in any letter case, 8 for IGN and Door1, 5
    otherwise), the first in iteration order among equals, and its longitude
    likewise (lon; Power and Door2). *)
Theorem C5_global_scan_picks_first_best (r : row) :
  specialCase0308 r = None ->
  specialCase0350 r = None ->
  knownPair r "Door1" "Door2" = None ->
  knownPair r "IGN" "Power" = None ->
  coordPairs r locationFields = [] ->
  (exists x, In x r /\ latCandidate x = true) ->
  (exists x, In x r /\ lngCandidate x = true) ->
  exists lat lng latF lngF,
    extractCoordinates r = Valid lat lng (latF +:+ "/" +:+ lngF)
    /\ chosen latCandidate latScore r latF lat
    /\ chosen lngCandidate lngScore r lngF lng.
Proof.
  intros H08 H50 Hd Hi Hw [x [Hx Hcx]] [y [Hy Hcy]].
  destruct (globalScan_invariant r) as [Hlat Hlng].
  unfold extractCoordinates, laterStrategies. rewrite H08, H50, Hd, Hi, Hw.
  destruct (bestLat (globalScan r)) as [lat |].
  - destruct (bestLng (globalScan r)) as [lng |].
    + exists lat, lng, (latField (globalScan r)), (lngField (globalScan r)).
      split; [reflexivity |]. split; [apply Hlat | apply Hlng].
    + destruct Hlng as [_ Hnone]. rewrite (Hnone y Hy) in Hcy. discriminate.
  - destruct Hlat as [_ Hnone]. rewrite (Hnone x Hx) in Hcx. discriminate.
Qed.

Lemma C5_global_scan_witness :
  exists lat lng latF lngF,
    extractCoordinates rowScattered = Valid lat lng (latF +:+ "/" +:+ lngF)
    /\ chosen latCandidate latScore rowScattered latF lat
    /\ chosen lngCandidate lngScore rowScattered lngF lng.
Proof.
  apply (C5_global_scan_picks_first_best rowScattered); try reflexivity.
  - exists ("a", JStr "15,5"). split; [right; left; reflexivity | reflexivity].
  - exists ("b", JStr "74"). split; [do 3 right; left; reflexivity | reflexivity].
Defined.

End GlobalScanFacts.

(** ** CSV normalizer *)

Section CsvFacts.

(** The loop reads the lines two by two. *)
Lemma parseBlocks_alternates (lines : list string) :
  forall headers,
    fst (parseBlocks headers lines) = rowsOfPairs headers (untilNoData (pairs lines)).
Proof.
  assert (H : forall n lines, (length lines <= n)%nat -> forall headers,
            fst (parseBlocks headers lines)
            = rowsOfPairs headers (untilNoData (pairs lines))).
  { induction n as [| n IH]; intros ls Hlen headers.
    - destruct ls; [reflexivity | simpl in Hlen; lia].
    - destruct ls as [| h [| d rest]]; try reflexivity.
      simpl. destruct (includes d "No Data Found"); [reflexivity |].
      simpl. destruct (emitRow (readHeaders headers h) d) as [rows1 skipped1].
      specialize (IH rest ltac:(simpl in Hlen; lia) (readHeaders headers h)).
      destruct (parseBlocks (readHeaders headers h) rest) as [rows2 skipped2].
      simpl in *. now rewrite IH. }
  intros headers. now apply (H (length lines)).
Qed.

(** C9.  The parser consumes the non-empty lines in strict header/data
    alternation.  A line in header position that does not start with
    [Company,] is consumed and leaves the headers as they were, and the next
    line is the data line of the block.  A header line directly followed by
    another header line makes the second one a data row under the headers of
    the first. *)
Theorem C9_header_data_alternation :
  (forall csvText,
     parseFiretruckCSV csvText
     = rowsOfPairs [] (untilNoData (pairs (nonEmptyLines csvText))))
  /\ (forall headers lines,
       fst (parseBlocks headers lines)
       = rowsOfPairs headers (untilNoData (pairs lines)))
  /\ (forall headers line dataLine rest,
       startsWith line "Company," = false ->
       includes dataLine "No Data Found" = false ->
       fst (parseBlocks headers (line :: dataLine :: rest))
       = fst (emitRow headers dataLine) ++ fst (parseBlocks headers rest))
  /\ (forall headers header1 header2 rest,
       startsWith header1 "Company," = true ->
       startsWith header2 "Company," = true ->
       includes header2 "No Data Found" = false ->
       fst (parseBlocks headers (header1 :: header2 :: rest))
       = fst (emitRow (List.map trim (split "," header1)) header2)
         ++ fst (parseBlocks (List.map trim (split "," header1)) rest)).
Proof.
  split.
  { intros csvText. unfold parseFiretruckCSV.
    destruct (String.eqb_spec csvText EmptyString) as [-> | _];
      [reflexivity | apply parseBlocks_alternates]. }
  split; [intros; apply parseBlocks_alternates |].
  split.
  - intros headers line dataLine rest Hline Hdata.
    simpl. rewrite Hdata. unfold readHeaders. rewrite Hline.
    destruct (emitRow headers dataLine), (parseBlocks headers rest). reflexivity.
  - intros headers header1 header2 rest H1 _ Hdata.
    simpl. rewrite Hdata. unfold readHeaders. rewrite H1.
    destruct (emitRow _ header2), (parseBlocks _ rest). reflexivity.
Qed.

(** The second header line of [csvTwoHeaders] comes out as a record of the
    vehicle [V9] of the company [Company]. *)
Lemma C9_alternation_witness :
  parseFiretruckCSV csvTwoHeaders
  = [[("Company", JStr "Company"); ("Vehicle_No", JStr "V9");
      ("Door1", JStr "15.5"); ("Door2", JStr "73.9");
      ("Latitude", JNum (Finite 155 (-1))); ("Longitude", JNum (Finite 739 (-1)))]].
Proof.
  unfold parseFiretruckCSV.
  change (String.eqb csvTwoHeaders EmptyString) with false. cbv iota.
  change (nonEmptyLines csvTwoHeaders)
    with ["Company,Vehicle_No,Door1,Door2"; "Company,V9,15.5,73.9"].
  rewrite (proj2 (proj2 (proj2 C9_header_data_alternation)) []
             "Company,Vehicle_No,Door1,Door2" "Company,V9,15.5,73.9" []
             eq_refl eq_refl eq_refl).
  reflexivity.
Defined.

End CsvFacts.

(** ** Track accumulator *)

Section TrackFacts.

Lemma differs_pointEq (p c : point) : differs p c = negb (pointEq p c).
Proof. unfold differs, pointEq, numNe. now rewrite negb_andb. Qed.


(** What one iteration of the loop does to the features. *)
Lemma processTruck_features (now : string) (st st' : accState) (truck : json) :
  processTruck now st truck = Some st' ->
  accFeatures st' = accFeatures st
  \/ (exists i f c ts,
        accFeatures st !! i = Some f
        /\ (forall p, last (coordinates f) = Some p -> pointEq p c = false)
        /\ accFeatures st' = <[i := extend f c ts]> (accFeatures st))
  \/ (exists f, (exists c, coordinates f = [c])
                /\ accFeatures st' = accFeatures st ++ [f]).
Proof.
  unfold processTruck.
  destruct (getProp truck "Vehicle_No") as [vehicleId |]; [| discriminate].
  destruct (getProp truck "Datetime") as [datetime |]; [| discriminate].
  destruct (getProp truck "Longitude") as [longitude |]; [| discriminate].
  destruct (getProp truck "Latitude") as [latitude |]; [| discriminate].
  destruct (getProp truck "Vehicle_Name") as [name |]; [| discriminate].
  destruct (getProp truck "Branch") as [branch |]; [| discriminate].
  cbn [fst snd].
  destruct vehicleId as [id |].
  2: { intros [= <-]. left. reflexivity. }
  destruct (negb (truthy id) || _ || _).
  { intros [= <-]. left. reflexivity. }
  destruct (hasOwnProperty (accMap st) (toStr id)) as [[] |]; [| | discriminate].
  - destruct (accMap st !! toStr id) as [i |]; [| discriminate].
    destruct (accFeatures st !! i) as [f |] eqn:Hf; [| discriminate].
    destruct (last (coordinates f)) as [p |] eqn:Hlast.
    + destruct (differs p _) eqn:Hd.
      * intros [= <-]. right. left. do 4 eexists. split; [exact Hf |].
        split; [| reflexivity].
        intros p' Hp'. rewrite Hlast in Hp'. injection Hp' as <-.
        rewrite differs_pointEq in Hd. now apply negb_true_iff in Hd.
      * intros [= <-]. left. reflexivity.
    + intros [= <-]. right. left. do 4 eexists. split; [exact Hf |].
      split; [| reflexivity]. intros p' Hp'. rewrite Hlast in Hp'. discriminate.
  - intros [= <-]. right. right. eexists. split; [| reflexivity].
    eexists. reflexivity.
Qed.

Lemma grownFrom_refl (fs : list feature) : grownFrom fs fs.
Proof.
  split; [lia |]. split.
  - intros i f Hf. exists f. split; [exact Hf | constructor].
  - intros i f Hi Hf. apply lookup_lt_Some in Hf. lia.
Qed.

(** One iteration keeps [grownFrom]. *)
Lemma grownFrom_step (now : string) (fs0 : list feature) (st st' : accState)
    (truck : json) :
  grownFrom fs0 (accFeatures st) ->
  processTruck now st truck = Some st' ->
  grownFrom fs0 (accFeatures st').
Proof.
  intros (Hlen & Hold & Hnew) Hstep.
  destruct (processTruck_features _ _ _ _ Hstep)
    as [-> | [(i & f & c & ts & Hf & Hfresh & ->) | (f & [c Hc] & ->)]].
  - now split.
  - split; [now rewrite length_insert |]. split.
    + intros j f0 Hf0. destruct (decide (i = j)) as [-> | Hne].
      * destruct (Hold j f0 Hf0) as (f1 & Hf1 & Happ).
        rewrite Hf in Hf1. injection Hf1 as <-.
        exists (extend f c ts). split.
        -- apply list_lookup_insert_eq. now apply lookup_lt_Some in Hf.
        -- simpl. now constructor.
      * rewrite list_lookup_insert_ne by exact Hne. now apply Hold.
    + intros j f1 Hj Hf1. destruct (decide (i = j)) as [-> | Hne].
      * rewrite list_lookup_insert_eq in Hf1 by now apply lookup_lt_Some in Hf.
        injection Hf1 as <-.
        destruct (Hnew j f Hj Hf) as [c0 Happ].
        exists c0. simpl. now constructor.
      * rewrite list_lookup_insert_ne in Hf1 by exact Hne. now apply (Hnew j).
  - split; [rewrite length_app; simpl; lia |]. split.
    + intros j f0 Hf0. destruct (Hold j f0 Hf0) as (f1 & Hf1 & Happ).
      exists f1. split; [| exact Happ].
      rewrite lookup_app_l; [exact Hf1 | now apply lookup_lt_Some in Hf1].
    + intros j f1 Hj Hf1.
      destruct (decide (j < length (accFeatures st))%nat) as [Hlt | Hge].
      * rewrite lookup_app_l in Hf1 by exact Hlt. now apply (Hnew j).
      * rewrite lookup_app_r in Hf1 by lia.
        destruct (j - length (accFeatures st))%nat; simpl in Hf1; [| discriminate].
        injection Hf1 as <-. exists c. rewrite Hc. constructor.
Qed.

Lemma grownFrom_forEach (clock : nat -> string) (fs0 : list feature)
    (trucks : list json) :
  forall k st st',
    grownFrom fs0 (accFeatures st) ->
    forEachTruck clock k st trucks = inl st' ->
    grownFrom fs0 (accFeatures st').
Proof.
  induction trucks as [| truck rest IH]; intros k st st' Hinv Hrun; simpl in Hrun.
  - injection Hrun as <-. exact Hinv.
  - destruct (processTruck (clock k) st truck) as [st1 |] eqn:Hstep; [| discriminate].
    apply (IH (S k) st1 st'); [| exact Hrun].
    now apply (grownFrom_step (clock k) fs0 st st1 truck).
Qed.

(** The file written by a call that returns a path. *)
Lemma updateDailyGpxTracks_written (e : trackEnv) (trucks : list json) (w w' : world)
    (path : string) :
  updateDailyGpxTracks e trucks w = (Some path, w') ->
  path = getGpxFilename (today e)
  /\ exists t st',
      fst (loadTracks e (trackFiles w)) = Collection t
      /\ forEachTruck (truckTime e) 0
           (mkAcc (features t) (indexFeatures ∅ 0 (features t))
                  [snd (loadTracks e (trackFiles w))]) trucks = inl st'
      /\ trackFiles w'
         = <[getGpxFilename (today e) := TrackFile (finish e t (accFeatures st'))]>
             (trackFiles w).
Proof.
  unfold updateDailyGpxTracks.
  destruct (loadTracks e (trackFiles w)) as [[t | fs |] ev]; cbn [fst snd].
  - destruct (forEachTruck _ _ _ _) as [st' | log] eqn:Hloop; [| discriminate].
    intros [= <- <-]. split; [reflexivity |]. exists t, st'.
    split; [reflexivity |]. split; [exact Hloop | reflexivity].
  - destruct (forEachTruck _ _ _ _); discriminate.
  - discriminate.
Qed.


(** A sighting at the last point of the track of its vehicle changes
    nothing. *)
Lemma processTruck_same_point (now : string) (st : accState) (truck id : json)
    (c p : point) (i : nat) (f : feature) :
  sighting truck id c ->
  hasOwnProperty (accMap st) (toStr id) = Some true ->
  accMap st !! toStr id = Some i ->
  accFeatures st !! i = Some f ->
  last (coordinates f) = Some p ->
  pointEq p c = true ->
  processTruck now st truck = Some st.
Proof.
  intros (fields & -> & Hid & Htruthy & -> & Hlon & Hlat) Hown Hi Hf Hlast Heq.
  cbn [fst snd] in Hlon, Hlat.
  unfold processTruck. cbn [getProp fst snd].
  rewrite Hid, Htruthy, Hlon, Hlat, Hown, Hi, Hf, Hlast. cbn [negb orb].
  rewrite differs_pointEq, Heq. reflexivity.
Qed.

(** A sighting after a vehicle named [hasOwnProperty] throws. *)
Lemma processTruck_shadowed (now : string) (st : accState) (truck id : json)
    (c : point) :
  sighting truck id c ->
  hasOwnProperty (accMap st) (toStr id) = None ->
  processTruck now st truck = None.
Proof.
  intros (fields & -> & Hid & Htruthy & -> & Hlon & Hlat) Hown.
  cbn [fst snd] in Hlon, Hlat.
  unfold processTruck. cbn [getProp fst snd].
  rewrite Hid, Htruthy, Hlon, Hlat, Hown. reflexivity.
Qed.

Lemma hasOwnProperty_true (m : gmap string nat) (key : string) (i : nat) :
  m !! key = Some i -> hasOwnProperty m key = None \/ hasOwnProperty m key = Some true.
Proof.
  intros Hk. unfold hasOwnProperty.
  destruct (m !! "hasOwnProperty"); [now left | right].
  rewrite Hk. reflexivity.
Qed.


Lemma loadTracks_present (e : trackEnv) (files : gmap string fileContent) (t : tracks) :
  files !! getGpxFilename (today e) = Some (TrackFile t) ->
  loadTracks e files = (Collection t, LogLoadedTracks (today e)).
Proof. intros H. unfold loadTracks. now rewrite H. Qed.

(** C10.  A sighting at the last point of the track of its vehicle leaves
    the variables of the loop as they were: no point is appended and no
    property of the feature, [lastUpdated] included, is assigned.  A call
    that receives only such a sighting leaves in the file the features that
    were there. *)
Theorem C10_same_point_leaves_feature :
  (forall now st truck id c p i f,
     sighting truck id c ->
     hasOwnProperty (accMap st) (toStr id) = Some true ->
     accMap st !! toStr id = Some i ->
     accFeatures st !! i = Some f ->
     last (coordinates f) = Some p ->
     pointEq p c = true ->
     processTruck now st truck = Some st)
  /\ (forall e w t truck id c p i f,
       trackFiles w !! getGpxFilename (today e) = Some (TrackFile t) ->
       sighting truck id c ->
       indexFeatures ∅ 0 (features t) !! toStr id = Some i ->
       features t !! i = Some f ->
       last (coordinates f) = Some p ->
       pointEq p c = true ->
       exists t',
         trackFiles (snd (updateDailyGpxTracks e [truck] w))
           !! getGpxFilename (today e) = Some (TrackFile t')
         /\ features t' = features t
         /\ features t' !! i = Some f).
Proof.
  split.
  - intros. eapply processTruck_same_point; eassumption.
  - intros e w t truck id c p i f Hfile Hs Hi Hf Hlast Heq.
    unfold updateDailyGpxTracks. rewrite (loadTracks_present e _ t Hfile).
    cbn [forEachTruck].
    set (st := mkAcc (features t) (indexFeatures ∅ 0 (features t))
                     [LogLoadedTracks (today e)]).
    destruct (hasOwnProperty_true _ _ _ Hi) as [Hown | Hown].
    + rewrite (processTruck_shadowed _ st truck id c Hs Hown).
      cbn [snd logTo trackFiles]. exists t. now repeat split.
    + rewrite (processTruck_same_point _ st truck id c p i f Hs Hown Hi Hf Hlast Heq).
      cbn [snd trackFiles accFeatures st].
      eexists. split; [apply lookup_insert_eq |]. cbn [features finish].
      now split.
Qed.

Lemma C10_same_point_witness :
  exists t',
    trackFiles (snd (updateDailyGpxTracks day1Later [truckV1] worldV1))
      !! getGpxFilename "20250501" = Some (TrackFile t')
    /\ features t' = [featureV1]
    /\ features t' !! 0%nat = Some featureV1.
Proof.
  apply (proj2 C10_same_point_leaves_feature day1Later worldV1
           (finish day1 (freshTracks "20250501") [featureV1])
           truckV1 (JStr "V1") pointV1 pointV1 0%nat featureV1).
  - vm_compute. reflexivity.
  - eexists. repeat split.
  - vm_compute. reflexivity.
  - reflexivity.
  - reflexivity.
  - reflexivity.
Defined.

(** The loop reads the log nowhere: entries logged beforehand stay in
    front and change nothing else. *)
Lemma processTruck_relog (now : string) (l : list logEvent) (st : accState)
    (truck : json) :
  processTruck now (relog l st) truck = relog l <$> processTruck now st truck.
Proof.
  unfold processTruck.
  destruct (getProp truck "Vehicle_No") as [vehicleId |]; [| reflexivity].
  destruct (getProp truck "Datetime") as [datetime |]; [| reflexivity].
  destruct (getProp truck "Longitude") as [longitude |]; [| reflexivity].
  destruct (getProp truck "Latitude") as [latitude |]; [| reflexivity].
  destruct (getProp truck "Vehicle_Name") as [name |]; [| reflexivity].
  destruct (getProp truck "Branch") as [branch |]; [| reflexivity].
  unfold relog. cbn [accFeatures accMap accLog].
  destruct vehicleId as [id |];
    [| cbn [fmap option_fmap option_map accFeatures accMap accLog];
       now rewrite app_assoc].
  destruct (negb (truthy id) || _ || _);
    [cbn [fmap option_fmap option_map accFeatures accMap accLog];
     now rewrite app_assoc |].
  destruct (hasOwnProperty (accMap st) (toStr id)) as [[] |]; [| | reflexivity].
  - destruct (accMap st !! toStr id) as [i |]; [| reflexivity].
    destruct (accFeatures st !! i) as [f |]; [| reflexivity].
    destruct (match last (coordinates f) with Some _ => _ | None => _ end);
      reflexivity.
  - reflexivity.
Qed.

Lemma forEachTruck_relog (clock : nat -> string) (l : list logEvent)
    (trucks : list json) :
  forall k st,
    forEachTruck clock k (relog l st) trucks
    = match forEachTruck clock k st trucks with
      | inl st' => inl (relog l st')
      | inr log => inr (l ++ log)
      end.
Proof.
  induction trucks as [| truck rest IH]; intros k st; simpl; [reflexivity |].
  rewrite processTruck_relog.
  destruct (processTruck (clock k) st truck) as [st1 |]; simpl; [apply IH | reflexivity].
Qed.


(** Whether [fetchAndCacheData] exits depends on what was fetched only. *)
Lemma fetchAndCacheDataFrom_exits (locate : json -> json * logEvent)
    (e : fetchEnv) (f : fetched) (w w' : world) :
  exits (fetchAndCacheDataFrom locate e f w)
  = exits (fetchAndCacheDataFrom locate e f w').
Proof.
  unfold fetchAndCacheDataFrom. destruct f as [| jsonData]; [reflexivity |].
  destruct (locate jsonData) as [rows located].
  destruct rows; try reflexivity.
  destruct (normalizeRows items) as [[rows' |] warnings]; [| reflexivity].
  do 2 destruct (updateDailyGpxTracks _ _ _). reflexivity.
Qed.

Lemma createDailyTracks_exits (eFetch : fetchEnv) (f : fetched) (e : trackEnv)
    (w : world) :
  exits (createDailyTracks eFetch f e w)
  = if (0 <? length (parsedFireTrucks w))%nat then false
    else exits (fetchAndCacheDataV1 eFetch f w).
Proof.
  unfold createDailyTracks.
  destruct (0 <? length (parsedFireTrucks w))%nat.
  - destruct (updateDailyGpxTracks _ _ _). reflexivity.
  - destruct (fetchAndCacheDataV1 eFetch f w); [reflexivity |].
    destruct (updateDailyGpxTracks _ _ _). reflexivity.
Qed.

End TrackFacts.

(** ** Fetch orchestrator *)

Section PipelineFacts.

Lemma updateDailyGpxTracks_snapshot (e : trackEnv) (trucks : list json) (w : world) :
  snapshotFile (snd (updateDailyGpxTracks e trucks w)) = snapshotFile w.
Proof.
  unfold updateDailyGpxTracks.
  destruct (loadTracks e (trackFiles w)) as [[t | fs |] ev]; [| | reflexivity];
    destruct (forEachTruck _ _ _ _); reflexivity.
Qed.

(** A row that passes the filter is an object whose Latitude and Longitude
    pass the range check. *)
Lemma rowIsValid_fields (r : json) :
  rowIsValid r = true ->
  isValidGoaCoordinate (snd (pointCoordinates (toPointFeature r))) TLat = true
  /\ isValidGoaCoordinate (fst (pointCoordinates (toPointFeature r))) TLng = true.
Proof.
  unfold rowIsValid. destruct r; simpl; try discriminate.
  intros H. now apply andb_true_iff in H.
Qed.

(** The snapshot written by a call that returns holds one Point per returned
    row, each with coordinates that pass the range check, and the count of
    these rows. *)
Lemma snapshot_points_validated (locate : json -> json * logEvent) (e : fetchEnv)
    (f : fetched) (w w' : world) (rows : list json) :
  fetchAndCacheDataFrom locate e f w = Returned rows w' ->
  Forall (fun r => rowIsValid r = true) rows
  /\ snapshotFile w' = Some (makeSnapshot e rows)
  /\ Forall (fun pf =>
               isValidGoaCoordinate (snd (pointCoordinates pf)) TLat = true
               /\ isValidGoaCoordinate (fst (pointCoordinates pf)) TLng = true)
            (snapshotFeatures (makeSnapshot e rows)).
Proof.
  unfold fetchAndCacheDataFrom. destruct f as [| jsonData]; [discriminate |].
  destruct (locate jsonData) as [rs located].
  destruct rs; try discriminate.
  destruct (normalizeRows items) as [[rows' |] warnings]; [| discriminate].
  match goal with
  | |- context [updateDailyGpxTracks ?te ?tr ?w1] =>
      pose proof (updateDailyGpxTracks_snapshot te tr w1) as Hsnap;
      destruct (updateDailyGpxTracks te tr w1) as [path w2]
  end.
  intros [= <- <-]. cbn [snd snapshotFile] in Hsnap.
  assert (Hvalid : Forall (fun r => rowIsValid r = true) (List.filter rowIsValid rows')).
  { apply List.Forall_forall. intros r Hr. now apply List.filter_In in Hr. }
  split; [exact Hvalid |]. split; [exact Hsnap |].
  cbn [makeSnapshot snapshotFeatures].
  apply List.Forall_forall. intros pf Hpf.
  apply List.in_map_iff in Hpf as (r & <- & Hr).
  apply rowIsValid_fields. rewrite List.Forall_forall in Hvalid. now apply Hvalid.
Qed.

(** C2 (defect).  [main] on a body with one vehicle outside the bounding
    box: [fetchAndCacheData] filters the row out of the snapshot and out of
    its own track update, then [createDailyTracks] takes the unfiltered
    [parsedFireTrucks] and writes the point into the daily track file. *)
Theorem C2_unvalidated_point_reaches_track_file :
  exists w,
    main day1Fetch (Fetched mumbaiPayload) day1Fetch FetchFailed day1 emptyWorld
    = Returned tt w
    /\ (snapshotFeatures <$> snapshotFile w) = Some []
    /\ (exists t f,
          trackFiles w !! getGpxFilename "20250501" = Some (TrackFile t)
          /\ features t = [f]
          /\ Vehicle_No (properties f) = JStr "XT123"
          /\ coordinates f = [mumbaiPoint])
    /\ inLngRange (fst mumbaiPoint) = false
    /\ inLatRange (snd mumbaiPoint) = false.
Proof.
  eexists. split; [vm_compute; reflexivity |].
  split; [reflexivity |].
  split; [| split; reflexivity].
  do 2 eexists. split; [vm_compute; reflexivity |]. repeat split.
Qed.

(** When none of the three locations holds a truthy value, the rows are the
    empty array. *)
Lemma vehicleRows_absent (jsonData : json) :
  truthyU (member (member (Some jsonData) "root") "VehicleData") = false ->
  isArray jsonData = false ->
  truthyU (member (Some jsonData) "data") = false ->
  vehicleRows jsonData = (JArr [], LogNoVehicleData).
Proof.
  intros Hroot Harr Hdata. unfold vehicleRows.
  rewrite Hroot, Harr, Hdata. now rewrite !andb_false_r.
Qed.

(** A body without rows: the run returns, with no row and a snapshot of
    count 0 and no feature. *)
Lemma no_rows_empty_snapshot (locate : json -> json * logEvent) (e : fetchEnv)
    (jsonData : json) (w : world) (located : logEvent) :
  locate jsonData = (JArr [], located) ->
  exists w',
    fetchAndCacheDataFrom locate e (Fetched jsonData) w = Returned [] w'
    /\ snapshotFile w'
       = Some (mkSnapshot "FeatureCollection" (snapshotTime e) sourceLabel 0 []).
Proof.
  intros Hloc. unfold fetchAndCacheDataFrom. rewrite Hloc.
  cbn [normalizeRows List.filter].
  match goal with
  | |- context [updateDailyGpxTracks ?te ?tr ?w1] =>
      pose proof (updateDailyGpxTracks_snapshot te tr w1) as Hsnap;
      destruct (updateDailyGpxTracks te tr w1) as [path w2]
  end.
  eexists. split; [reflexivity |]. exact Hsnap.
Qed.

(** C7 (defect).  The body [{"root":{"VehicleData":"No Data Found"}}] has no
    array at any of the known locations; the string at the conventional path
    is taken for the rows, [rows.forEach] throws, and the run ends by
    [process.exit(1)] before any snapshot is written.  A body where the
    locations are absent gives the empty snapshot. *)
Theorem C7_non_array_rows_exit :
  isArray noDataPayload = false
  /\ member (member (Some noDataPayload) "root") "VehicleData" = Some (JStr "No Data Found")
  /\ member (Some noDataPayload) "data" = None
  /\ fetchAndCacheData day1Fetch (Fetched noDataPayload) emptyWorld
     = Exit1 (mkWorld None ∅ [] [LogParsedRecords; LogFatal])
  /\ (exists w',
        fetchAndCacheData day1Fetch (Fetched emptyPayload) emptyWorld = Returned [] w'
        /\ snapshotFile w'
           = Some (mkSnapshot "FeatureCollection" (snapshotTime day1Fetch) sourceLabel 0 [])).
Proof.
  repeat split.
  apply no_rows_empty_snapshot with (located := LogNoVehicleData).
  reflexivity.
Qed.

End PipelineFacts.

(** * Further properties of the code *)

(** ** Records as association lists *)

Section RowFacts.

Lemma getField_In (r : row) (k : string) (v : json) :
  getField r k = Some v -> In (k, v) r.
Proof.
  induction r as [| [k' v'] rest IH]; simpl; [discriminate |].
  destruct (String.eqb_spec k' k) as [-> | _].
  - intros [= ->]. now left.
  - intros H. right. now apply IH.
Qed.

Lemma getField_setField_eq (r : row) (k : string) (v : json) :
  getField (setField r k v) k = Some v.
Proof.
  induction r as [| [k' v'] rest IH]; simpl.
  - now rewrite String.eqb_refl.
  - destruct (String.eqb_spec k' k) as [-> | Hne]; simpl.
    + now rewrite String.eqb_refl.
    + destruct (String.eqb_spec k' k); [contradiction | exact IH].
Qed.

Lemma getField_setField_ne (r : row) (k k' : string) (v : json) :
  k <> k' -> getField (setField r k v) k' = getField r k'.
Proof.
  intros Hne. induction r as [| [k0 v0] rest IH]; simpl.
  - destruct (String.eqb_spec k k'); [contradiction | reflexivity].
  - destruct (String.eqb_spec k0 k) as [-> | H0]; simpl.
    + destruct (String.eqb_spec k k'); [contradiction | reflexivity].
    + destruct (String.eqb_spec k0 k'); [reflexivity | exact IH].
Qed.

Lemma setField_Forall (P : string * json -> Prop) (r : row) (k : string) (v : json) :
  Forall P r -> P (k, v) -> (forall v', P (k, v') -> P (k, v)) ->
  Forall P (setField r k v).
Proof.
  intros Hr Hkv _. induction r as [| [k' v'] rest IH]; simpl.
  - now constructor.
  - inversion Hr as [| x l Hx Hl]; subst.
    destruct (String.eqb_spec k' k) as [-> | _]; constructor; auto.
Qed.

Lemma replaceComma_noComma (s : string) : noComma s = true -> replaceComma s = s.
Proof.
  induction s as [| c rest IH]; simpl; [reflexivity |].
  intros H. apply andb_true_iff in H as [Hc Hrest].
  apply negb_true_iff in Hc. rewrite Hc. now rewrite IH.
Qed.

(** On a string without a comma the two ways of reading a number agree. *)
Lemma cleanParse_plain (s : string) :
  noComma s = true -> cleanParse (JStr s) = parseFloat (JStr s).
Proof.
  intros H. unfold cleanParse, parseFloat. simpl toStr.
  now rewrite replaceComma_noComma.
Qed.

Lemma plainRow_getField (r : row) (k : string) (v : json) :
  plainRow r -> getField r k = Some v -> exists s, v = JStr s /\ noComma s = true.
Proof.
  intros Hr Hk. apply getField_In in Hk.
  unfold plainRow in Hr. rewrite List.Forall_forall in Hr.
  exact (Hr (k, v) Hk).
Qed.

End RowFacts.

(** ** Coordinate resolver: where a result can come from *)

Section ResolverRange.

Lemma specialCase_inBox (r : row) (id latF lngF defLat defLng src : string)
    (c : Resolver.coordinates) :
  specialCase r id latF lngF defLat defLng src = Some c -> inBox c.
Proof.
  unfold specialCase. destruct (vehicleIs r id); [| discriminate].
  rewrite isValid_num_lat, isValid_num_lng.
  destruct (negb _ && negb _ && inLatRange _ && inLngRange _) eqn:H; [| discriminate].
  intros [= <-]. simpl.
  apply andb_true_iff in H as [H Hlng]. apply andb_true_iff in H as [_ Hlat].
  now split.
Qed.

Lemma windowPair_inBox (r : row) (field1 field2 : string) (c : Resolver.coordinates) :
  windowPair r field1 field2 = Some c -> inBox c.
Proof.
  unfold windowPair. destruct (negb _ || negb _); [discriminate |].
  destruct (negb _ && negb _); [| discriminate].
  rewrite !isValid_num_lat, !isValid_num_lng.
  destruct (inLatRange (parseFloatU (getField r field1))
            && inLngRange (parseFloatU (getField r field2))) eqn:H1.
  - intros [= <-]. simpl. now apply andb_true_iff in H1.
  - destruct (inLngRange (parseFloatU (getField r field1))
              && inLatRange (parseFloatU (getField r field2))) eqn:H2; [| discriminate].
    intros [= <-]. simpl. apply andb_true_iff in H2 as [Ha Hb]. now split.
Qed.

Lemma coordPairs_inBox (r : row) (fields : list string) :
  Forall inBox (coordPairs r fields).
Proof.
  induction fields as [| field1 rest IH]; simpl; [constructor |].
  destruct rest as [| field2 rest']; [constructor |].
  destruct (windowPair r field1 field2) as [c |] eqn:Hw; [| exact IH].
  constructor; [now apply (windowPair_inBox r field1 field2) | exact IH].
Qed.

Lemma chosen_latCandidate (r : row) (fld : string) (n : jsnum) :
  chosen latCandidate latScore r fld n ->
  inLatRange n = true /\ exists v, In (fld, v) r /\ latCandidate (fld, v) = true.
Proof.
  intros (pre & v & post & -> & Hc & -> & _). split.
  - unfold latCandidate in Hc. now apply andb_true_iff in Hc.
  - exists v. split; [apply in_or_app; right; now left | exact Hc].
Qed.

Lemma chosen_lngCandidate (r : row) (fld : string) (n : jsnum) :
  chosen lngCandidate lngScore r fld n ->
  inLngRange n = true /\ exists v, In (fld, v) r /\ lngCandidate (fld, v) = true.
Proof.
  intros (pre & v & post & -> & Hc & -> & _). split.
  - unfold lngCandidate in Hc. now apply andb_true_iff in Hc.
  - exists v. split; [apply in_or_app; right; now left | exact Hc].
Qed.

(** The result of the scan over all fields, when there is one, is in the
    box. *)
Lemma globalScan_inBox (r : row) (lat lng : jsnum) :
  bestLat (globalScan r) = Some lat -> bestLng (globalScan r) = Some lng ->
  inLatRange lat = true /\ inLngRange lng = true.
Proof.
  intros Hlat Hlng. destruct (globalScan_invariant r) as [Ia Ib].
  rewrite Hlat in Ia. rewrite Hlng in Ib. simpl in Ia, Ib.
  destruct Ia as [_ Ia]. destruct Ib as [_ Ib].
  split; [now apply (chosen_latCandidate r _ _ Ia) | now apply (chosen_lngCandidate r _ _ Ib)].
Qed.

(** The step of the cascade a result comes from. *)
Lemma extractCoordinates_origin (r : row) (c : Resolver.coordinates) :
  extractCoordinates r = c ->
  inBox c
  \/ knownPair r "Door1" "Door2" = Some c
  \/ knownPair r "IGN" "Power" = Some c
  \/ (c = Invalid
      /\ (bestLat (globalScan r) = None \/ bestLng (globalScan r) = None)).
Proof.
  unfold extractCoordinates, laterStrategies.
  destruct (specialCase0308 r) as [c0 |] eqn:H08.
  { intros <-. left. exact (specialCase_inBox r _ _ _ _ _ _ c0 H08). }
  destruct (specialCase0350 r) as [c0 |] eqn:H50.
  { intros <-. left. exact (specialCase_inBox r _ _ _ _ _ _ c0 H50). }
  destruct (knownPair r "Door1" "Door2") as [c0 |] eqn:Hd.
  { intros <-. right. left. reflexivity. }
  destruct (knownPair r "IGN" "Power") as [c0 |] eqn:Hi.
  { intros <-. right. right. left. reflexivity. }
  pose proof (coordPairs_inBox r locationFields) as Hw.
  destruct (coordPairs r locationFields) as [| c0 rest].
  - destruct (bestLat (globalScan r)) as [la |] eqn:Hla.
    + destruct (bestLng (globalScan r)) as [ln |] eqn:Hln.
      * intros <-. left. simpl. now apply (globalScan_inBox r).
      * intros <-. do 3 right. split; [reflexivity | now right].
    + intros <-. do 3 right. split; [reflexivity | now left].
  - intros <-. left. inversion Hw as [| x l Hc Hrest]; subst. exact Hc.
Qed.

(** X1.  Whatever [extractCoordinates] returns as valid is inside the
    bounding box, unless it is the pair returned by one of the two
    known-pair steps (Door1/Door2, IGN/Power), which test the fields with the
    comma normalization and return them read without it. *)
Theorem resolver_result_in_box_or_known_pair (r : row) (lat lng : jsnum) (src : string) :
  extractCoordinates r = Valid lat lng src ->
  (inLatRange lat = true /\ inLngRange lng = true)
  \/ knownPair r "Door1" "Door2" = Some (Valid lat lng src)
  \/ knownPair r "IGN" "Power" = Some (Valid lat lng src).
Proof.
  intros Hres.
  destruct (extractCoordinates_origin r _ Hres) as [H | [H | [H | [H _]]]].
  - left. exact H.
  - right. left. exact H.
  - right. right. exact H.
  - discriminate.
Qed.

Lemma resolver_result_in_box_or_known_pair_witness :
  (inLatRange (Finite 155 (-1)) = true /\ inLngRange (Finite 739 (-1)) = true)
  \/ knownPair rowConventional "Door1" "Door2"
     = Some (Valid (Finite 155 (-1)) (Finite 739 (-1)) "Latitude/Longitude")
  \/ knownPair rowConventional "IGN" "Power"
     = Some (Valid (Finite 155 (-1)) (Finite 739 (-1)) "Latitude/Longitude").
Proof.
  apply (resolver_result_in_box_or_known_pair rowConventional). reflexivity.
Defined.

(** A known pair of comma-free strings is returned as validated. *)
Lemma knownPair_plain_inBox (r : row) (latF lngF : string) (c : Resolver.coordinates) :
  plainRow r -> knownPair r latF lngF = Some c -> inBox c.
Proof.
  intros Hr. unfold knownPair.
  destruct (isValidGoaCoordinate (getField r latF) TLat) eqn:Hlat; [| discriminate].
  destruct (isValidGoaCoordinate (getField r lngF) TLng) eqn:Hlng; [| discriminate].
  intros [= <-]. simpl.
  destruct (getField r latF) as [v1 |] eqn:H1; [| discriminate].
  destruct (getField r lngF) as [v2 |] eqn:H2; [| discriminate].
  destruct (plainRow_getField r latF v1 Hr H1) as (s1 & -> & Hs1).
  destruct (plainRow_getField r lngF v2 Hr H2) as (s2 & -> & Hs2).
  unfold isValidGoaCoordinate in Hlat, Hlng.
  destruct (negb (truthy (JStr s1))); [discriminate |].
  destruct (negb (truthy (JStr s2))); [discriminate |].
  rewrite (cleanParse_plain s1 Hs1) in Hlat. rewrite (cleanParse_plain s2 Hs2) in Hlng.
  destruct (isNaN (parseFloat (JStr s1))); [discriminate |].
  destruct (isNaN (parseFloat (JStr s2))); [discriminate |].
  now split.
Qed.

(** X2.  On a record whose values are strings without a comma, every valid
    result of [extractCoordinates] is inside the bounding box. *)
Theorem resolver_plain_row_in_box (r : row) (lat lng : jsnum) (src : string) :
  plainRow r ->
  extractCoordinates r = Valid lat lng src ->
  inLatRange lat = true /\ inLngRange lng = true.
Proof.
  intros Hr Hres.
  destruct (extractCoordinates_origin r _ Hres) as [H | [H | [H | [H _]]]].
  - exact H.
  - exact (knownPair_plain_inBox r _ _ _ Hr H).
  - exact (knownPair_plain_inBox r _ _ _ Hr H).
  - discriminate.
Qed.

Lemma resolver_plain_row_in_box_witness :
  inLatRange (Finite 155 (-1)) = true /\ inLngRange (Finite 739 (-1)) = true.
Proof.
  apply (resolver_plain_row_in_box rowConventional _ _ "Latitude/Longitude");
    [| reflexivity].
  repeat constructor; eexists; split; reflexivity.
Defined.

Lemma knownPair_not_Invalid (r : row) (latF lngF : string) (c : Resolver.coordinates) :
  knownPair r latF lngF = Some c -> c <> Invalid.
Proof.
  unfold knownPair. destruct (_ && _); [| discriminate]. now intros [= <-].
Qed.

Lemma inBox_not_Invalid (c : Resolver.coordinates) : inBox c -> c <> Invalid.
Proof. destruct c; [contradiction | discriminate]. Qed.

(** X3.  A record with a latitude candidate and a longitude candidate,
    in any fields, is never rejected: [extractCoordinates] returns a valid
    result. *)
Theorem resolver_accepts_candidates (r : row) :
  (exists x, In x r /\ latCandidate x = true) ->
  (exists x, In x r /\ lngCandidate x = true) ->
  extractCoordinates r <> Invalid.
Proof.
  intros [x [Hx Hcx]] [y [Hy Hcy]].
  destruct (extractCoordinates_origin r _ eq_refl) as [H | [H | [H | [_ H]]]].
  - now apply inBox_not_Invalid.
  - exact (knownPair_not_Invalid _ _ _ _ H).
  - exact (knownPair_not_Invalid _ _ _ _ H).
  - destruct (globalScan_invariant r) as [Ia Ib].
    destruct H as [H | H].
    + rewrite H in Ia. destruct Ia as [_ Hnone].
      rewrite (Hnone x Hx) in Hcx. discriminate.
    + rewrite H in Ib. destruct Ib as [_ Hnone].
      rewrite (Hnone y Hy) in Hcy. discriminate.
Qed.

Lemma resolver_accepts_candidates_witness : extractCoordinates rowScattered <> Invalid.
Proof.
  apply (resolver_accepts_candidates rowScattered).
  - exists ("a", JStr "15,5"). split; [right; left; reflexivity | reflexivity].
  - exists ("b", JStr "74"). split; [do 3 right; left; reflexivity | reflexivity].
Defined.

(** A string field that passes [isValidGoaCoordinate] is a candidate. *)
Lemma isValid_plain_lat (r : row) (k : string) :
  plainRow r -> isValidGoaCoordinate (getField r k) TLat = true ->
  exists v, In (k, v) r /\ latCandidate (k, v) = true.
Proof.
  intros Hr Hv. destruct (getField r k) as [v |] eqn:Hk; [| discriminate].
  destruct (plainRow_getField r k v Hr Hk) as (s & -> & Hs).
  exists (JStr s). split; [now apply getField_In |].
  unfold isValidGoaCoordinate in Hv. unfold latCandidate. cbn [snd].
  destruct (truthy (JStr s)); [| discriminate]. cbn [negb] in Hv.
  destruct (isNaN (cleanParse (JStr s))); [discriminate | exact Hv].
Qed.

Lemma isValid_plain_lng (r : row) (k : string) :
  plainRow r -> isValidGoaCoordinate (getField r k) TLng = true ->
  exists v, In (k, v) r /\ lngCandidate (k, v) = true.
Proof.
  intros Hr Hv. destruct (getField r k) as [v |] eqn:Hk; [| discriminate].
  destruct (plainRow_getField r k v Hr Hk) as (s & -> & Hs).
  exists (JStr s). split; [now apply getField_In |].
  unfold isValidGoaCoordinate in Hv. unfold lngCandidate. cbn [snd].
  destruct (truthy (JStr s)); [| discriminate]. cbn [negb] in Hv.
  destruct (isNaN (cleanParse (JStr s))); [discriminate | exact Hv].
Qed.

(** A string field that the sliding window reads in range is a candidate. *)
Lemma window_plain_lat (r : row) (k : string) :
  plainRow r -> truthyU (getField r k) = true ->
  inLatRange (parseFloatU (getField r k)) = true ->
  exists v, In (k, v) r /\ latCandidate (k, v) = true.
Proof.
  intros Hr Ht Hv. destruct (getField r k) as [v |] eqn:Hk; [| discriminate].
  destruct (plainRow_getField r k v Hr Hk) as (s & -> & Hs).
  exists (JStr s). split; [now apply getField_In |].
  unfold latCandidate. cbn [snd]. rewrite (cleanParse_plain s Hs).
  cbn [truthyU parseFloatU] in Ht, Hv. now rewrite Ht, Hv.
Qed.

Lemma window_plain_lng (r : row) (k : string) :
  plainRow r -> truthyU (getField r k) = true ->
  inLngRange (parseFloatU (getField r k)) = true ->
  exists v, In (k, v) r /\ lngCandidate (k, v) = true.
Proof.
  intros Hr Ht Hv. destruct (getField r k) as [v |] eqn:Hk; [| discriminate].
  destruct (plainRow_getField r k v Hr Hk) as (s & -> & Hs).
  exists (JStr s). split; [now apply getField_In |].
  unfold lngCandidate. cbn [snd]. rewrite (cleanParse_plain s Hs).
  cbn [truthyU parseFloatU] in Ht, Hv. now rewrite Ht, Hv.
Qed.

Lemma windowPair_plain_candidates (r : row) (field1 field2 : string)
    (c : Resolver.coordinates) :
  plainRow r -> windowPair r field1 field2 = Some c ->
  (exists x, In x r /\ latCandidate x = true)
  /\ (exists x, In x r /\ lngCandidate x = true).
Proof.
  intros Hr. unfold windowPair.
  destruct (truthyU (getField r field1)) eqn:T1; [| discriminate].
  destruct (truthyU (getField r field2)) eqn:T2; [| discriminate].
  cbn [negb orb].
  destruct (negb _ && negb _); [| discriminate].
  rewrite !isValid_num_lat, !isValid_num_lng.
  destruct (inLatRange (parseFloatU (getField r field1))) eqn:A1;
    destruct (inLngRange (parseFloatU (getField r field2))) eqn:B2; cbn [andb].
  1: { intros _. split.
       - destruct (window_plain_lat r field1 Hr T1 A1) as (v & Hv). now exists (field1, v).
       - destruct (window_plain_lng r field2 Hr T2 B2) as (v & Hv). now exists (field2, v). }
  all: destruct (inLngRange (parseFloatU (getField r field1))) eqn:B1;
    destruct (inLatRange (parseFloatU (getField r field2))) eqn:A2; cbn [andb];
    try discriminate; intros _; split.
  all: try (destruct (window_plain_lat r field2 Hr T2 A2) as (v & Hv); now exists (field2, v)).
  all: try (destruct (window_plain_lng r field1 Hr T1 B1) as (v & Hv); now exists (field1, v)).
Qed.

Lemma coordPairs_plain_candidates (r : row) (fields : list string) :
  plainRow r -> coordPairs r fields <> [] ->
  (exists x, In x r /\ latCandidate x = true)
  /\ (exists x, In x r /\ lngCandidate x = true).
Proof.
  intros Hr. induction fields as [| field1 rest IH]; simpl; [congruence |].
  destruct rest as [| field2 rest']; [congruence |].
  destruct (windowPair r field1 field2) as [c |] eqn:Hw; [| exact IH].
  intros _. exact (windowPair_plain_candidates r field1 field2 c Hr Hw).
Qed.

(** X4.  Conversely, on a record of comma-free strings of a vehicle without
    an override, a valid result means that some field is a latitude
    candidate and some field a longitude candidate: the resolver invents
    nothing. *)
Theorem resolver_result_needs_candidates (r : row) :
  plainRow r ->
  vehicleIs r id0308 = false ->
  vehicleIs r id0350 = false ->
  extractCoordinates r <> Invalid ->
  (exists x, In x r /\ latCandidate x = true)
  /\ (exists x, In x r /\ lngCandidate x = true).
Proof.
  intros Hr H08 H50. unfold extractCoordinates, laterStrategies.
  unfold specialCase0308, specialCase0350. fold id0308 id0350.
  rewrite (specialCase_other r id0308) by exact H08.
  rewrite (specialCase_other r id0350) by exact H50.
  destruct (knownPair r "Door1" "Door2") as [c |] eqn:Hd.
  { intros _. unfold knownPair in Hd.
    destruct (isValidGoaCoordinate (getField r "Door1") TLat) eqn:V1; [| discriminate].
    destruct (isValidGoaCoordinate (getField r "Door2") TLng) eqn:V2; [| discriminate].
    destruct (isValid_plain_lat r "Door1" Hr V1) as (v1 & Hv1).
    destruct (isValid_plain_lng r "Door2" Hr V2) as (v2 & Hv2).
    split; [now exists ("Door1", v1) | now exists ("Door2", v2)]. }
  destruct (knownPair r "IGN" "Power") as [c |] eqn:Hi.
  { intros _. unfold knownPair in Hi.
    destruct (isValidGoaCoordinate (getField r "IGN") TLat) eqn:V1; [| discriminate].
    destruct (isValidGoaCoordinate (getField r "Power") TLng) eqn:V2; [| discriminate].
    destruct (isValid_plain_lat r "IGN" Hr V1) as (v1 & Hv1).
    destruct (isValid_plain_lng r "Power" Hr V2) as (v2 & Hv2).
    split; [now exists ("IGN", v1) | now exists ("Power", v2)]. }
  destruct (coordPairs r locationFields) as [| c rest] eqn:Hw.
  - destruct (globalScan_invariant r) as [Ia Ib].
    destruct (bestLat (globalScan r)) as [la |]; [| congruence].
    destruct (bestLng (globalScan r)) as [ln |]; [| congruence].
    intros _. destruct Ia as [_ Ia]. destruct Ib as [_ Ib].
    destruct (chosen_latCandidate r _ _ Ia) as (_ & v1 & Hv1).
    destruct (chosen_lngCandidate r _ _ Ib) as (_ & v2 & Hv2).
    split; [now exists (latField (globalScan r), v1)
           | now exists (lngField (globalScan r), v2)].
  - intros _. apply (coordPairs_plain_candidates r locationFields Hr).
    rewrite Hw. discriminate.
Qed.

Lemma resolver_result_needs_candidates_witness :
  (exists x, In x rowConventional /\ latCandidate x = true)
  /\ (exists x, In x rowConventional /\ lngCandidate x = true).
Proof.
  apply (resolver_result_needs_candidates rowConventional);
    [| reflexivity | reflexivity | discriminate].
  repeat constructor; eexists; split; reflexivity.
Defined.

End ResolverRange.

(** ** CSV normalizer: what the rows hold *)

Section CsvRows.

Lemma noComma_rev_app (a b : string) :
  noComma (String.rev_app a b) = noComma a && noComma b.
Proof.
  revert b. induction a as [| c a IH]; intros b; simpl; [reflexivity |].
  rewrite IH. simpl. destruct (Ascii.eqb c ","); simpl.
  - now rewrite andb_false_r.
  - reflexivity.
Qed.

Lemma noComma_rev (a : string) : noComma (String.rev a) = noComma a.
Proof. unfold String.rev. rewrite noComma_rev_app. simpl. now rewrite andb_true_r. Qed.

(** The pieces of a line split at the commas hold no comma. *)
Lemma splitAux_noComma (s cur : string) :
  noComma cur = true ->
  Forall (fun piece => noComma piece = true) (splitAux "," s cur).
Proof.
  revert cur. induction s as [| c rest IH]; intros cur Hcur; simpl.
  - constructor; [now rewrite noComma_rev | constructor].
  - destruct (Ascii.eqb c ",") eqn:Hc.
    + constructor; [now rewrite noComma_rev | now apply IH].
    + apply IH. simpl. now rewrite Hc.
Qed.

Lemma split_noComma (s : string) :
  Forall (fun piece => noComma piece = true) (split "," s).
Proof. now apply splitAux_noComma. Qed.

Lemma substring_noComma (n m : nat) (s : string) :
  noComma s = true -> noComma (String.substring n m s) = true.
Proof.
  revert n m. induction s as [| c rest IH]; intros n m H.
  - destruct n, m; reflexivity.
  - simpl in H. apply andb_true_iff in H as [Hc Hrest].
    destruct n as [| n'].
    + destruct m as [| m']; simpl; [reflexivity |].
      rewrite Hc. simpl. now apply IH.
    + simpl. now apply IH.
Qed.

Lemma cellValue_noComma (values : list string) :
  Forall (fun piece => noComma piece = true) values ->
  noComma (cellValue values) = true.
Proof.
  intros H. unfold cellValue.
  assert (Hv : noComma (match values with v :: _ => v | [] => EmptyString end) = true).
  { destruct H; [reflexivity | assumption]. }
  destruct (startsWith _ quote && endsWith _ quote); [| exact Hv].
  unfold substring. now apply substring_noComma.
Qed.

Lemma tl_Forall {A : Type} (P : A -> Prop) (l : list A) : Forall P l -> Forall P (tl l).
Proof. intros H. destruct H; [constructor | assumption]. Qed.

Lemma setField_plain (r : row) (k s : string) :
  plainRow r -> noComma s = true -> plainRow (setField r k (JStr s)).
Proof.
  intros Hr Hs. unfold plainRow in *.
  induction r as [| [k' v'] rest IH]; simpl.
  - constructor; [now exists s | constructor].
  - inversion Hr as [| x l Hx Hl]; subst.
    destruct (String.eqb_spec k' k) as [-> | _]; constructor; auto.
    now exists s.
Qed.

Lemma fillRow_plain (headers values : list string) :
  forall acc,
    plainRow acc ->
    Forall (fun piece => noComma piece = true) values ->
    plainRow (fillRow acc headers values).
Proof.
  revert values. induction headers as [| header hs IH]; intros values acc Hacc Hv; simpl.
  - exact Hacc.
  - apply IH; [| now apply tl_Forall].
    destruct (String.eqb header "__proto__"); [exact Hacc |].
    apply setField_plain; [exact Hacc | now apply cellValue_noComma].
Qed.

(** A record built from a data line holds comma-free strings only. *)
Lemma buildRow_plain (headers : list string) (dataLine : string) :
  plainRow (buildRow headers dataLine).
Proof.
  unfold buildRow. apply fillRow_plain; [constructor | apply split_noComma].
Qed.

Lemma emitRow_boxed (headers : list string) (dataLine : string) :
  Forall hasBoxedPosition (fst (emitRow headers dataLine)).
Proof.
  unfold emitRow.
  destruct (extractCoordinates (buildRow headers dataLine)) as [| lat lng src] eqn:Hres;
    [constructor |].
  destruct (extractCoordinates_origin _ _ Hres) as [H | [H | [H | [H _]]]];
    try discriminate.
  all: assert (Hbox : inLatRange lat = true /\ inLngRange lng = true)
         by (try exact H;
             exact (knownPair_plain_inBox _ _ _ _ (buildRow_plain headers dataLine) H)).
  all: constructor; [| constructor].
  all: exists lat, lng; destruct Hbox as [Hlat Hlng].
  all: split; [| split; [| now split]].
  all: try apply getField_setField_eq.
  all: rewrite getField_setField_ne by discriminate; apply getField_setField_eq.
Qed.

Lemma rowsOfPairs_boxed (ps : list (string * string)) :
  forall headers, Forall hasBoxedPosition (rowsOfPairs headers ps).
Proof.
  induction ps as [| [h d] rest IH]; intros headers; simpl; [constructor |].
  apply Forall_app. split; [apply emitRow_boxed | apply IH].
Qed.

(** X5.  Every record returned by [parseFiretruckCSV] carries, in Latitude
    and Longitude, numbers inside the bounding box: a line is split at its
    commas, so no cell can hold the comma decimal that the known-pair steps
    mishandle. *)
Theorem csv_rows_have_boxed_positions (csvText : string) :
  Forall hasBoxedPosition (parseFiretruckCSV csvText).
Proof.
  unfold parseFiretruckCSV.
  destruct (String.eqb csvText EmptyString); [constructor |].
  rewrite parseBlocks_alternates. apply rowsOfPairs_boxed.
Qed.

(** What one pair adds: one row or one skip. *)
Lemma emitRow_count (headers : list string) (dataLine : string) :
  (length (fst (emitRow headers dataLine)) + snd (emitRow headers dataLine) = 1)%nat.
Proof.
  unfold emitRow. destruct (extractCoordinates _); reflexivity.
Qed.

(** X6.  Every data line that the loop reaches is accounted for: the rows
    returned and the rows counted as skipped add up to the number of
    header/data pairs before the end of the text or the [No Data Found]
    marker. *)
Theorem csv_rows_and_skips_add_up (headers lines : list string) :
  (length (fst (parseBlocks headers lines)) + snd (parseBlocks headers lines)
   = length (untilNoData (pairs lines)))%nat.
Proof.
  assert (H : forall n ls, (length ls <= n)%nat -> forall hs,
            (length (fst (parseBlocks hs ls)) + snd (parseBlocks hs ls)
             = length (untilNoData (pairs ls)))%nat).
  { induction n as [| n IH]; intros ls Hlen hs.
    - destruct ls; [reflexivity | simpl in Hlen; lia].
    - destruct ls as [| h [| d rest]]; try reflexivity.
      simpl. destruct (includes d "No Data Found"); [reflexivity |].
      pose proof (emitRow_count (readHeaders hs h) d) as Hone.
      destruct (emitRow (readHeaders hs h) d) as [rows1 skipped1].
      specialize (IH rest ltac:(simpl in Hlen; lia) (readHeaders hs h)).
      destruct (parseBlocks (readHeaders hs h) rest) as [rows2 skipped2].
      simpl in *. rewrite length_app. lia. }
  now apply (H (length lines)).
Qed.

(** X7.  Nothing after a data line that holds [No Data Found] is read:
    the rows are those of the blocks before it, whatever follows. *)
Theorem csv_stops_at_no_data (headers : list string) (before : list (string * string))
    (headerLine dataLine : string) (after : list string) :
  Forall (fun p => includes (snd p) "No Data Found" = false) before ->
  includes dataLine "No Data Found" = true ->
  fst (parseBlocks headers
         (concat (List.map (fun p => [fst p; snd p]) before)
          ++ headerLine :: dataLine :: after))
  = rowsOfPairs headers before.
Proof.
  intros Hbefore Hmark. rewrite parseBlocks_alternates. f_equal.
  induction Hbefore as [| [h d] rest Hd Hrest IH]; simpl.
  - now rewrite Hmark.
  - simpl in Hd. rewrite Hd. now rewrite IH.
Qed.

Lemma csv_stops_at_no_data_witness :
  fst (parseBlocks []
         (concat (List.map (fun p => [fst p; snd p])
                    [("Company,Latitude,Longitude", "DFES,15.49,73.82")])
          ++ "Company,Latitude,Longitude" :: "No Data Found"
             :: ["Company,Latitude,Longitude"; "DFES,15.28,73.95"]))
  = rowsOfPairs [] [("Company,Latitude,Longitude", "DFES,15.49,73.82")].
Proof.
  apply (csv_stops_at_no_data []
           [("Company,Latitude,Longitude", "DFES,15.49,73.82")]
           "Company,Latitude,Longitude" "No Data Found"
           ["Company,Latitude,Longitude"; "DFES,15.28,73.95"]).
  - constructor; [vm_compute; reflexivity | constructor].
  - vm_compute. reflexivity.
Defined.

Lemma setField_keys (r : row) (k0 : string) (v0 : json) (k : string) (v : json) :
  In (k, v) (setField r k0 v0) -> k = k0 \/ In k (List.map fst r).
Proof.
  induction r as [| [k' v'] rest IH]; simpl.
  - intros [[= <- <-] | []]. now left.
  - destruct (String.eqb_spec k' k0) as [-> | Hne]; simpl.
    + intros [[= <- <-] | Hin]; [now left |].
      right. right. apply in_map_iff. now exists (k, v).
    + intros [[= <- <-] | Hin]; [right; now left |].
      destruct (IH Hin) as [-> | H]; [now left | right; now right].
Qed.

(** The fields that [fillRow] leaves are those it started from and the
    headers other than [__proto__]. *)
Lemma fillRow_keys (headers : list string) :
  forall acc values k v,
    In (k, v) (fillRow acc headers values) ->
    In k (List.map fst acc) \/ (In k headers /\ k <> "__proto__").
Proof.
  induction headers as [| header hs IH]; intros acc values k v Hin; simpl in Hin.
  - left. apply in_map_iff. now exists (k, v).
  - destruct (String.eqb_spec header "__proto__") as [-> | Hne].
    + destruct (IH _ _ _ _ Hin) as [H | [H1 H2]]; [now left |].
      right. split; [now right | exact H2].
    + destruct (IH _ _ _ _ Hin) as [H | [H1 H2]].
      * apply in_map_iff in H as ([k1 v1] & <- & H).
        apply setField_keys in H as [-> | H]; [| now left].
        right. split; [now left | exact Hne].
      * right. split; [now right | exact H2].
Qed.

Lemma fillRow_other (headers : list string) :
  forall acc values h,
    ~ In h headers -> getField (fillRow acc headers values) h = getField acc h.
Proof.
  induction headers as [| header hs IH]; intros acc values h Hnot; simpl; [reflexivity |].
  rewrite IH by (intros Hin; apply Hnot; now right).
  destruct (String.eqb header "__proto__"); [reflexivity |].
  apply getField_setField_ne. intros ->. apply Hnot. now left.
Qed.

Lemma drop_tl (i : nat) (values : list string) :
  drop i (tl values) = drop (S i) values.
Proof. destruct values; [now destruct i | reflexivity]. Qed.

(** The field of a header holds the cell at the position of the last
    occurrence of that header. *)
Lemma fillRow_cell (headers : list string) :
  forall acc values i h,
    headers !! i = Some h -> h <> "__proto__" ->
    (forall j, (i < j)%nat -> headers !! j <> Some h) ->
    getField (fillRow acc headers values) h
    = Some (JStr (cellValue (drop i values))).
Proof.
  induction headers as [| header hs IH]; intros acc values i h Hi Hp Hlast;
    [discriminate |].
  destruct i as [| i]; simpl.
  - injection Hi as ->.
    rewrite fillRow_other.
    + apply String.eqb_neq in Hp. rewrite Hp. apply getField_setField_eq.
    + intros Hin. apply list_elem_of_In, list_elem_of_lookup in Hin as [j Hj].
      apply (Hlast (S j)); [lia | exact Hj].
  - rewrite (IH _ _ i h); [now rewrite drop_tl | exact Hi | exact Hp |].
    intros j Hj. apply (Hlast (S j)). lia.
Qed.

(** X14.  Cells go to headers by position.  The fields of a record built
    from a data line are headers other than [__proto__]; the field of a
    header holds the cell at the position of the header (of its last
    occurrence, when it is repeated), with one pair of surrounding quotes
    removed, and the empty string when the line has fewer cells. *)
Theorem csv_row_cells_by_position (headers : list string) (dataLine : string) :
  (forall k v, In (k, v) (buildRow headers dataLine) ->
     In k headers /\ k <> "__proto__")
  /\ (forall i h,
        headers !! i = Some h -> h <> "__proto__" ->
        (forall j, (i < j)%nat -> headers !! j <> Some h) ->
        getField (buildRow headers dataLine) h
        = Some (JStr (cellValue (drop i (split "," dataLine))))
        /\ ((length (split "," dataLine) <= i)%nat ->
            getField (buildRow headers dataLine) h = Some (JStr EmptyString))).
Proof.
  split.
  - intros k v Hin. unfold buildRow in Hin.
    apply fillRow_keys in Hin as [[] | H]. exact H.
  - intros i h Hi Hp Hlast. unfold buildRow.
    rewrite (fillRow_cell _ _ _ i h Hi Hp Hlast). split; [reflexivity |].
    intros Hshort. now rewrite drop_ge.
Qed.

Lemma csv_row_cells_by_position_witness :
  getField (buildRow ["Company"; "Branch"; "Company"; "Speed"] "a,b,c") "Company"
  = Some (JStr (cellValue (drop 2 (split "," "a,b,c"))))
  /\ getField (buildRow ["Company"; "Branch"; "Company"; "Speed"] "a,b,c") "Speed"
     = Some (JStr EmptyString).
Proof.
  destruct (csv_row_cells_by_position ["Company"; "Branch"; "Company"; "Speed"] "a,b,c")
    as [_ H].
  split.
  - apply (H 2%nat "Company").
    + reflexivity.
    + discriminate.
    + intros j Hj. do 3 (destruct j as [| j]; [lia |]). destruct j; discriminate.
  - apply (H 3%nat "Speed").
    + reflexivity.
    + discriminate.
    + intros j Hj. do 4 (destruct j as [| j]; [lia |]). discriminate.
    + vm_compute. lia.
Defined.

End CsvRows.

(** ** Track accumulator: what a call leaves alone and what it keeps *)

Section TrackInvariants.

(** What one iteration does to the features and to the map. *)
Lemma processTruck_cases (now : string) (st st' : accState) (truck : json) :
  processTruck now st truck = Some st' ->
  (accFeatures st' = accFeatures st /\ accMap st' = accMap st)
  \/ (exists id i f c ts,
        truckKey truck = Some (toStr id)
        /\ accMap st !! toStr id = Some i
        /\ accFeatures st !! i = Some f
        /\ accFeatures st' = <[i := extend f c ts]> (accFeatures st)
        /\ accMap st' = accMap st)
  \/ (exists id c ts name branch,
        truckKey truck = Some (toStr id)
        /\ truthy id = true
        /\ hasOwnProperty (accMap st) (toStr id) = Some false
        /\ accFeatures st' = accFeatures st ++ [newFeature id c ts name branch]
        /\ accMap st' = mapSet (accMap st) (toStr id) (length (accFeatures st))).
Proof.
  unfold processTruck, truckKey.
  destruct (getProp truck "Vehicle_No") as [vehicleId |]; [| discriminate].
  destruct (getProp truck "Datetime") as [datetime |]; [| discriminate].
  destruct (getProp truck "Longitude") as [longitude |]; [| discriminate].
  destruct (getProp truck "Latitude") as [latitude |]; [| discriminate].
  destruct (getProp truck "Vehicle_Name") as [name |]; [| discriminate].
  destruct (getProp truck "Branch") as [branch |]; [| discriminate].
  cbn [fst snd].
  destruct vehicleId as [id |].
  2: { intros [= <-]. left. now split. }
  destruct (truthy id) eqn:Hid; cbn [negb orb].
  2: { intros [= <-]. left. now split. }
  destruct (negb _ || negb _).
  { intros [= <-]. left. now split. }
  destruct (hasOwnProperty (accMap st) (toStr id)) as [[] |] eqn:Hown; [| | discriminate].
  - destruct (accMap st !! toStr id) as [i |] eqn:Hi; [| discriminate].
    destruct (accFeatures st !! i) as [f |] eqn:Hf; [| discriminate].
    destruct (match last (coordinates f) with Some _ => _ | None => _ end).
    + intros [= <-]. right. left. exists id, i, f. do 2 eexists.
      repeat split; try reflexivity; assumption.
    + intros [= <-]. left. now split.
  - intros [= <-]. right. right. exists id. do 4 eexists.
    repeat split; try reflexivity; assumption.
Qed.

Lemma updateDailyGpxTracks_null (e : trackEnv) (trucks : list json) (w : world) :
  fst (updateDailyGpxTracks e trucks w) = None ->
  trackFiles (snd (updateDailyGpxTracks e trucks w)) = trackFiles w.
Proof.
  unfold updateDailyGpxTracks.
  destruct (loadTracks e (trackFiles w)) as [[t | fs |] ev]; [| | reflexivity];
    destruct (forEachTruck _ _ _ _); (discriminate || reflexivity).
Qed.

(** X8.  A call touches one file only: the snapshot, the variable
    [parsedFireTrucks] and the track files of every other day are as they
    were; and a call that returns [null] leaves the file of the day as it
    was too. *)
Theorem track_update_touches_one_file (e : trackEnv) (trucks : list json) (w : world) :
  let run := updateDailyGpxTracks e trucks w in
  snapshotFile (snd run) = snapshotFile w
  /\ parsedFireTrucks (snd run) = parsedFireTrucks w
  /\ (forall name, name <> getGpxFilename (today e) ->
        trackFiles (snd run) !! name = trackFiles w !! name)
  /\ (fst run = None -> trackFiles (snd run) = trackFiles w).
Proof.
  cbv zeta. split; [apply updateDailyGpxTracks_snapshot |].
  split; [| split; [| apply updateDailyGpxTracks_null]].
  - unfold updateDailyGpxTracks.
    destruct (loadTracks e (trackFiles w)) as [[t | fs |] ev]; [| | reflexivity];
      destruct (forEachTruck _ _ _ _); reflexivity.
  - intros name Hname. unfold updateDailyGpxTracks.
    destruct (loadTracks e (trackFiles w)) as [[t | fs |] ev]; [| | reflexivity];
      destruct (forEachTruck _ _ _ _); cbn [snd trackFiles logTo]; try reflexivity.
    now apply lookup_insert_ne.
Qed.

Lemma track_update_touches_one_file_witness :
  trackFiles (snd (updateDailyGpxTracks day1 [truckV1] corruptWorld))
    !! getGpxFilename "20250430"
  = trackFiles corruptWorld !! getGpxFilename "20250430".
Proof.
  apply (proj1 (proj2 (proj2 (track_update_touches_one_file day1 [truckV1] corruptWorld)))).
  discriminate.
Defined.

(** X9.  The file written by a call has, in its metadata, the number of its
    features as [count] and the time of the write as [lastUpdated]; its
    type, date, source and description are those of the collection the call
    started from. *)
Theorem track_file_metadata (e : trackEnv) (trucks : list json) (w w' : world)
    (path : string) :
  updateDailyGpxTracks e trucks w = (Some path, w') ->
  exists t t',
    fst (loadTracks e (trackFiles w)) = Collection t
    /\ trackFiles w' !! path = Some (TrackFile t')
    /\ count (metadata t') = Some (length (features t'))
    /\ metaLastUpdated (metadata t') = Some (writeTime e)
    /\ collectionType t' = collectionType t
    /\ date (metadata t') = date (metadata t)
    /\ source (metadata t') = source (metadata t)
    /\ description (metadata t') = description (metadata t).
Proof.
  intros Hrun.
  destruct (updateDailyGpxTracks_written _ _ _ _ _ Hrun)
    as (-> & t & st' & Hload & _ & ->).
  exists t. eexists. split; [exact Hload |].
  split; [apply lookup_insert_eq |]. now repeat split.
Qed.

Lemma track_file_metadata_witness :
  exists t t',
    fst (loadTracks day1 (trackFiles emptyWorld)) = Collection t
    /\ trackFiles worldV1 !! getGpxFilename "20250501" = Some (TrackFile t')
    /\ count (metadata t') = Some (length (features t'))
    /\ metaLastUpdated (metadata t') = Some "2025-05-01T10:00:01.000Z"
    /\ collectionType t' = collectionType t
    /\ date (metadata t') = date (metadata t)
    /\ source (metadata t') = source (metadata t)
    /\ description (metadata t') = description (metadata t).
Proof.
  apply (track_file_metadata day1 [truckV1] emptyWorld worldV1).
  vm_compute. reflexivity.
Defined.

Lemma keptOrExtended_refl (f : feature) : keptOrExtended f f.
Proof. split; [now repeat split | now left]. Qed.

Lemma keptOrExtended_extend (f0 f : feature) (c : point) (ts : json) :
  keptOrExtended f0 f -> keptOrExtended f0 (extend f c ts).
Proof.
  intros [(H1 & H2 & H3 & H4 & H5 & H6) Hlen]. split.
  - now repeat split.
  - right. simpl. rewrite length_app. simpl.
    destruct Hlen as [-> | Hlt]; lia.
Qed.

Lemma keptOrExtended_forEach (clock : nat -> string) (fs0 : list feature)
    (trucks : list json) :
  forall k st st',
    (forall i f, fs0 !! i = Some f ->
       exists f', accFeatures st !! i = Some f' /\ keptOrExtended f f') ->
    forEachTruck clock k st trucks = inl st' ->
    forall i f, fs0 !! i = Some f ->
      exists f', accFeatures st' !! i = Some f' /\ keptOrExtended f f'.
Proof.
  induction trucks as [| truck rest IH]; intros k st st' Hinv Hrun; simpl in Hrun.
  - injection Hrun as <-. exact Hinv.
  - destruct (processTruck (clock k) st truck) as [st1 |] eqn:Hstep; [| discriminate].
    apply (IH (S k) st1 st'); [| exact Hrun].
    intros i f Hf. destruct (Hinv i f Hf) as (f1 & Hf1 & Hk).
    destruct (processTruck_features _ _ _ _ Hstep)
      as [-> | [(j & g & c & ts & Hg & _ & ->) | (g & _ & ->)]].
    + now exists f1.
    + destruct (decide (j = i)) as [-> | Hne].
      * rewrite Hg in Hf1. injection Hf1 as <-.
        exists (extend g c ts). split.
        -- apply list_lookup_insert_eq. now apply lookup_lt_Some in Hg.
        -- now apply keptOrExtended_extend.
      * exists f1. split; [| exact Hk]. now rewrite list_lookup_insert_ne.
    + exists f1. split; [| exact Hk].
      rewrite lookup_app_l; [exact Hf1 | now apply lookup_lt_Some in Hf1].
Qed.

(** X10.  A call never removes or moves a track and never rewrites what
    identifies it: every feature of the loaded file is found at the same
    index in the written file with the same types, vehicle, name, branch and
    [created]; it is either untouched, [lastUpdated] included, or has more
    points. *)
Theorem track_features_kept (e : trackEnv) (trucks : list json) (w w' : world)
    (path : string) :
  updateDailyGpxTracks e trucks w = (Some path, w') ->
  exists t t',
    fst (loadTracks e (trackFiles w)) = Collection t
    /\ trackFiles w' !! path = Some (TrackFile t')
    /\ forall i f,
         features t !! i = Some f ->
         exists f', features t' !! i = Some f' /\ keptOrExtended f f'.
Proof.
  intros Hrun.
  destruct (updateDailyGpxTracks_written _ _ _ _ _ Hrun)
    as (-> & t & st' & Hload & Hloop & ->).
  exists t. eexists. split; [exact Hload |].
  split; [apply lookup_insert_eq |]. cbn [features finish].
  apply (keptOrExtended_forEach _ _ _ _ _ _ ltac:(
           intros i f Hf; exists f; split; [exact Hf | apply keptOrExtended_refl]) Hloop).
Qed.

Lemma track_features_kept_witness :
  exists t t',
    fst (loadTracks day1Later (trackFiles worldV1)) = Collection t
    /\ trackFiles (snd (updateDailyGpxTracks day1Later [truckV1] worldV1))
         !! getGpxFilename "20250501" = Some (TrackFile t')
    /\ forall i f,
         features t !! i = Some f ->
         exists f', features t' !! i = Some f' /\ keptOrExtended f f'.
Proof.
  apply (track_features_kept day1Later [truckV1] worldV1
           (snd (updateDailyGpxTracks day1Later [truckV1] worldV1))).
  vm_compute. reflexivity.
Defined.





Lemma hasOwnProperty_false (m : gmap string nat) (key : string) :
  hasOwnProperty m key = Some false -> m !! key = None.
Proof.
  unfold hasOwnProperty. destruct (m !! "hasOwnProperty"); [discriminate |].
  intros [= H]. apply bool_decide_eq_false in H.
  now apply eq_None_not_Some.
Qed.

Lemma mapSet_insert (m : gmap string nat) (key : string) (i : nat) :
  key <> "__proto__" -> mapSet m key i = <[key := i]> m.
Proof.
  intros H. unfold mapSet. apply String.eqb_neq in H. now rewrite H.
Qed.

Lemma indexes_snoc (m : gmap string nat) (fs : list feature) (f : feature) :
  indexes m fs -> m !! keyOf f = None ->
  indexes (<[keyOf f := length fs]> m) (fs ++ [f]).
Proof.
  intros Hm Hnone k i. rewrite lookup_insert_Some. split.
  - intros [[<- <-] | [Hne Hk]].
    + exists f. split; [| reflexivity]. apply lookup_snoc_Some. now right.
    + apply Hm in Hk as (g & Hg & Hkey). exists g. split; [| exact Hkey].
      now apply lookup_app_l_Some.
  - intros (g & Hg & Hkey). apply lookup_snoc_Some in Hg as [[Hlt Hg] | [-> <-]].
    + right. assert (Hk : m !! k = Some i) by (apply Hm; now exists g).
      split; [| exact Hk]. intros Heq. rewrite Heq, Hk in Hnone. discriminate.
    + left. now split.
Qed.

Lemma wellKeyed_snoc (m : gmap string nat) (fs : list feature) (f : feature) :
  wellKeyed fs -> indexes m fs -> m !! keyOf f = None ->
  truthy (Vehicle_No (properties f)) = true -> keyOf f <> "__proto__" ->
  wellKeyed (fs ++ [f]).
Proof.
  intros [Hok Huniq] Hm Hnone Ht Hp. split.
  - intros i g Hg. apply lookup_snoc_Some in Hg as [[_ Hg] | [_ <-]];
      [now apply (Hok i) | now split].
  - assert (Hfresh : forall i g, fs !! i = Some g -> keyOf g <> keyOf f).
    { intros i g Hg Heq.
      assert (Hk : m !! keyOf g = Some i) by (apply Hm; now exists g).
      rewrite Heq, Hnone in Hk. discriminate. }
    intros i j g h Hg Hh Hkey.
    apply lookup_snoc_Some in Hg as [[Hi Hg] | [-> <-]];
      apply lookup_snoc_Some in Hh as [[Hj Hh] | [-> <-]].
    + now apply (Huniq i j g h).
    + now destruct (Hfresh i g Hg).
    + symmetry in Hkey. now destruct (Hfresh j h Hh).
    + reflexivity.
Qed.

(** The key and the vehicle of every index stay what they were when a
    feature is extended in place. *)
Lemma extend_keys (fs : list feature) (i : nat) (f : feature) (c : point) (ts : json) :
  fs !! i = Some f ->
  (forall j g', <[i := extend f c ts]> fs !! j = Some g' ->
     exists g, fs !! j = Some g /\ keyOf g' = keyOf g
               /\ Vehicle_No (properties g') = Vehicle_No (properties g))
  /\ (forall j g, fs !! j = Some g ->
        exists g', <[i := extend f c ts]> fs !! j = Some g' /\ keyOf g' = keyOf g).
Proof.
  intros Hf. split.
  - intros j g' Hg'. apply list_lookup_insert_Some in Hg' as [(-> & <- & _) | [_ Hg]].
    + exists f. now repeat split.
    + exists g'. now repeat split.
  - intros j g Hg. destruct (decide (i = j)) as [-> | Hne].
    + rewrite Hf in Hg. injection Hg as <-. exists (extend f c ts). split; [| reflexivity].
      apply list_lookup_insert_eq. now apply lookup_lt_Some in Hf.
    + exists g. split; [| reflexivity]. now rewrite list_lookup_insert_ne.
Qed.

Lemma wellKeyed_extend (fs : list feature) (i : nat) (f : feature) (c : point) (ts : json) :
  fs !! i = Some f -> wellKeyed fs -> wellKeyed (<[i := extend f c ts]> fs).
Proof.
  intros Hf [Hok Huniq]. destruct (extend_keys fs i f c ts Hf) as [Hback _]. split.
  - intros j g' Hg'. destruct (Hback j g' Hg') as (g & Hg & Hk & Hv).
    rewrite Hk, Hv. now apply (Hok j).
  - intros j1 j2 g1 g2 H1 H2 Hkey.
    destruct (Hback j1 g1 H1) as (h1 & Hh1 & Hk1 & _).
    destruct (Hback j2 g2 H2) as (h2 & Hh2 & Hk2 & _).
    apply (Huniq j1 j2 h1 h2 Hh1 Hh2). congruence.
Qed.

Lemma indexes_extend (m : gmap string nat) (fs : list feature) (i : nat) (f : feature)
    (c : point) (ts : json) :
  fs !! i = Some f -> indexes m fs -> indexes m (<[i := extend f c ts]> fs).
Proof.
  intros Hf Hm k j. destruct (extend_keys fs i f c ts Hf) as [Hback Hforth].
  rewrite (Hm k j). split.
  - intros (g & Hg & <-). destruct (Hforth j g Hg) as (g' & Hg' & Hk). now exists g'.
  - intros (g' & Hg' & <-). destruct (Hback j g' Hg') as (g & Hg & Hk & _). now exists g.
Qed.

(** The map built from the loaded features files each of them. *)
Lemma indexFeatures_indexes (fs : list feature) :
  forall pre m,
    wellKeyed (pre ++ fs) -> indexes m pre ->
    indexes (indexFeatures m (length pre) fs) (pre ++ fs).
Proof.
  induction fs as [| f rest IH]; intros pre m Hwk Hm; simpl.
  - now rewrite app_nil_r.
  - assert (Hat : (pre ++ f :: rest) !! length pre = Some f).
    { apply lookup_app_Some. right. split; [lia |]. now rewrite Nat.sub_diag. }
    destruct Hwk as [Hok Huniq].
    destruct (Hok _ _ Hat) as [Ht Hp]. rewrite Ht.
    fold (keyOf f). rewrite mapSet_insert by exact Hp.
    assert (Hnone : m !! keyOf f = None).
    { destruct (m !! keyOf f) as [i |] eqn:Hk; [| reflexivity].
      apply Hm in Hk as (g & Hg & Hkey).
      assert (Hlt : (i < length pre)%nat) by now apply lookup_lt_Some in Hg.
      assert (Hg' : (pre ++ f :: rest) !! i = Some g) by now apply lookup_app_l_Some.
      pose proof (Huniq _ _ _ _ Hg' Hat Hkey). lia. }
    replace (pre ++ f :: rest) with ((pre ++ [f]) ++ rest) in * by now rewrite <- app_assoc.
    replace (S (length pre)) with (length (pre ++ [f])) by (rewrite length_app; simpl; lia).
    apply IH; [now split | now apply indexes_snoc].
Qed.

Lemma filed_forEach (clock : nat -> string) (trucks : list json) :
  forall k st st',
    wellKeyed (accFeatures st) -> indexes (accMap st) (accFeatures st) ->
    Forall (fun truck => truckKey truck <> Some "__proto__") trucks ->
    forEachTruck clock k st trucks = inl st' ->
    wellKeyed (accFeatures st').
Proof.
  induction trucks as [| truck rest IH]; intros k st st' Hwk Hm Hno Hrun; simpl in Hrun.
  - now injection Hrun as <-.
  - destruct (processTruck (clock k) st truck) as [st1 |] eqn:Hstep; [| discriminate].
    inversion Hno as [| x l Hx Hl]; subst.
    destruct (processTruck_cases _ _ _ _ Hstep)
      as [[Hf Hmap] | [(id & i & f & c & ts & _ & _ & Hf & Hfs & Hmap)
                      | (id & c & ts & name & branch & Hkey & Ht & Hown & Hfs & Hmap)]].
    + apply (IH (S k) st1 st'); try assumption; now rewrite ?Hf, ?Hmap.
    + apply (IH (S k) st1 st'); try assumption; rewrite Hfs, ?Hmap.
      * now apply wellKeyed_extend.
      * now apply indexes_extend.
    + assert (Hp : toStr id <> "__proto__") by (intros Heq; apply Hx; now rewrite Hkey, Heq).
      apply hasOwnProperty_false in Hown.
      apply (IH (S k) st1 st'); try assumption; rewrite Hfs, ?Hmap.
      * now apply (wellKeyed_snoc (accMap st)).
      * rewrite mapSet_insert by exact Hp.
        now apply (indexes_snoc (accMap st) (accFeatures st)
                     (newFeature id c ts name branch)).
Qed.

(** X12.  One track per vehicle.  When the loaded collection has one track
    per vehicle (each with a truthy [Vehicle_No] other than [__proto__]) and
    no record is of a vehicle named [__proto__], the file written has one
    track per vehicle again. *)
Theorem track_file_one_track_per_vehicle (e : trackEnv) (trucks : list json)
    (w w' : world) (path : string) (t : tracks) :
  fst (loadTracks e (trackFiles w)) = Collection t ->
  wellKeyed (features t) ->
  Forall (fun truck => truckKey truck <> Some "__proto__") trucks ->
  updateDailyGpxTracks e trucks w = (Some path, w') ->
  exists t', trackFiles w' !! path = Some (TrackFile t') /\ wellKeyed (features t').
Proof.
  intros Hload Hwk Hno Hrun.
  destruct (updateDailyGpxTracks_written _ _ _ _ _ Hrun)
    as (-> & t0 & st' & Hload0 & Hloop & ->).
  rewrite Hload in Hload0. injection Hload0 as <-.
  eexists. split; [apply lookup_insert_eq |]. cbn [features finish].
  refine (filed_forEach _ _ _ _ _ _ _ Hno Hloop); cbn [accMap accFeatures];
    [exact Hwk |].
  apply (indexFeatures_indexes _ [] ∅ Hwk).
  intros k i. rewrite lookup_empty. split; [discriminate |].
  intros (f & Hf & _). discriminate.
Qed.

Lemma track_file_one_track_per_vehicle_witness :
  exists t',
    trackFiles (snd (updateDailyGpxTracks day1Later [truckV1; truckV1] worldV1))
      !! getGpxFilename "20250501" = Some (TrackFile t')
    /\ wellKeyed (features t').
Proof.
  apply (track_file_one_track_per_vehicle day1Later [truckV1; truckV1] worldV1
           (snd (updateDailyGpxTracks day1Later [truckV1; truckV1] worldV1))
           (getGpxFilename "20250501")
           (finish day1 (freshTracks "20250501") [featureV1])).
  - vm_compute. reflexivity.
  - split.
    + intros i f Hf. destruct i as [| i]; [| destruct i; discriminate].
      injection Hf as <-. split; [reflexivity | vm_compute; discriminate].
    + intros i j f g Hf Hg _.
      destruct i as [| i]; [| destruct i; discriminate].
      destruct j as [| j]; [reflexivity | destruct j; discriminate].
  - repeat constructor; vm_compute; discriminate.
  - vm_compute. reflexivity.
Defined.









End TrackInvariants.

(** ** Track accumulator: the same point twice, and files that do not load *)

Section TrackScenarios.

(** C4 (defect).  Two runs of [fetchAndCacheData] on the same day, each
    receiving the same single sighting of the vehicle that the feed names
    [__proto__].  The assignment [vehicleTrackMap[vehicleId] = index] sets
    no property for that name, so the second run does not find the track of
    the first and stores the same point again, in a second track of the
    same vehicle.  For the vehicle [V1] the same two runs leave one track
    of one point. *)
Theorem C4_same_point_stored_twice :
  let name := getGpxFilename "20250501" in
  let w1 := worldOf (fetchAndCacheData day1Fetch (Fetched protoPayload) emptyWorld) in
  let w2 := worldOf (fetchAndCacheData day1FetchLater (Fetched protoPayload) w1) in
  sighting truckProto (JStr "__proto__") pointV1
  /\ rowsOf (fetchAndCacheData day1Fetch (Fetched protoPayload) emptyWorld)
     = [truckProto]
  /\ (exists t1 f,
        trackFiles w1 !! name = Some (TrackFile t1)
        /\ features t1 = [f]
        /\ Vehicle_No (properties f) = JStr "__proto__"
        /\ coordinates f = [pointV1])
  /\ (exists t2 f1 f2,
        trackFiles w2 !! name = Some (TrackFile t2)
        /\ features t2 = [f1; f2]
        /\ Vehicle_No (properties f1) = JStr "__proto__"
        /\ Vehicle_No (properties f2) = JStr "__proto__"
        /\ coordinates f1 = [pointV1]
        /\ coordinates f2 = [pointV1])
  /\ trackFiles w2
     = trackFiles (snd (updateDailyGpxTracks day1Later [truckProto]
                          (snd (updateDailyGpxTracks day1 [truckProto] emptyWorld))))
  /\ (exists t2,
        trackFiles (snd (updateDailyGpxTracks day1Later [truckV1] worldV1)) !! name
        = Some (TrackFile t2)
        /\ features t2 = [featureV1]).
Proof.
  cbv zeta. split; [eexists; repeat split |].
  split; [vm_compute; reflexivity |].
  split; [do 2 eexists; split; [vm_compute; reflexivity | repeat split] |].
  split; [do 3 eexists; split; [vm_compute; reflexivity | repeat split] |].
  split; [vm_compute; reflexivity |].
  eexists. split; [vm_compute; reflexivity | reflexivity].
Qed.

(** X27.  No point is appended after an equal one.  In the file written by
    a call, every feature of the loaded collection has its points followed
    by points appended one at a time, none equal to the point before it,
    and every other feature started with one point and grew in the same
    way. *)
Theorem track_points_never_repeat (e : trackEnv) (trucks : list json) (w w' : world)
    (path : string) :
  updateDailyGpxTracks e trucks w = (Some path, w') ->
  exists t t',
    fst (loadTracks e (trackFiles w)) = Collection t
    /\ trackFiles w' !! path = Some (TrackFile t')
    /\ grownFrom (features t) (features t').
Proof.
  intros Hrun.
  destruct (updateDailyGpxTracks_written _ _ _ _ _ Hrun)
    as (-> & t & st' & Hload & Hloop & ->).
  exists t. eexists. split; [exact Hload |].
  split; [apply lookup_insert_eq |]. cbn [features finish].
  apply (grownFrom_forEach _ _ _ _ _ _ (grownFrom_refl _) Hloop).
Qed.

Lemma track_points_never_repeat_witness :
  exists t t',
    fst (loadTracks day1Later (trackFiles worldV1)) = Collection t
    /\ trackFiles (snd (updateDailyGpxTracks day1Later [truckV1; truckProto] worldV1))
         !! getGpxFilename "20250501" = Some (TrackFile t')
    /\ grownFrom (features t) (features t').
Proof.
  apply (track_points_never_repeat day1Later [truckV1; truckProto] worldV1
           (snd (updateDailyGpxTracks day1Later [truckV1; truckProto] worldV1))).
  vm_compute. reflexivity.
Defined.



(** X29.  A file of the day that parses, but to a value without an array
    under [features] or without a [metadata] that takes a property, makes
    every call fail: it returns [null], logs the error last, and leaves
    every file, that one included, as it was. *)
Theorem track_update_fails_on_misshapen_file (e : trackEnv) (trucks : list json)
    (w : world) :
  trackFiles w !! getGpxFilename (today e) = Some NoFeatures
  \/ (exists fs, trackFiles w !! getGpxFilename (today e) = Some (NoMetadata fs)) ->
  let run := updateDailyGpxTracks e trucks w in
  fst run = None
  /\ trackFiles (snd run) = trackFiles w
  /\ snapshotFile (snd run) = snapshotFile w
  /\ exists entries,
       debugLog (snd run)
       = debugLog w ++ LogLoadedTracks (today e) :: entries ++ [LogTracksError].
Proof.
  intros Hfile run. subst run. unfold updateDailyGpxTracks, loadTracks.
  destruct Hfile as [-> | [fs ->]].
  - cbn [fst snd logTo trackFiles snapshotFile debugLog].
    repeat split. now exists [].
  - destruct (forEachTruck _ _ _ _) as [st' | log] eqn:Hloop;
      cbn [fst snd logTo trackFiles snapshotFile debugLog]; repeat split.
    + pose proof (forEachTruck_relog (truckTime e) [LogLoadedTracks (today e)] trucks
                    0%nat (mkAcc fs (indexFeatures ∅ 0 fs) [])) as Hre.
      unfold relog in Hre. cbn [accFeatures accMap accLog app] in Hre.
      rewrite Hloop in Hre.
      destruct (forEachTruck (truckTime e) 0 (mkAcc fs (indexFeatures ∅ 0 fs) []) trucks)
        as [st0 | log0]; [| discriminate].
      injection Hre as ->. exists (accLog st0). reflexivity.
    + pose proof (forEachTruck_relog (truckTime e) [LogLoadedTracks (today e)] trucks
                    0%nat (mkAcc fs (indexFeatures ∅ 0 fs) [])) as Hre.
      unfold relog in Hre. cbn [accFeatures accMap accLog app] in Hre.
      rewrite Hloop in Hre.
      destruct (forEachTruck (truckTime e) 0 (mkAcc fs (indexFeatures ∅ 0 fs) []) trucks)
        as [st0 | log0]; [discriminate |].
      injection Hre as ->. exists log0. reflexivity.
Qed.

Lemma track_update_fails_on_misshapen_file_witness :
  fst (updateDailyGpxTracks day1 [truckV1]
         (mkWorld None {[getGpxFilename "20250501" := NoMetadata [featureV1]]} [] []))
  = None
  /\ trackFiles (snd (updateDailyGpxTracks day1 [truckV1]
         (mkWorld None {[getGpxFilename "20250501" := NoMetadata [featureV1]]} [] [])))
     = {[getGpxFilename "20250501" := NoMetadata [featureV1]]}.
Proof.
  destruct (track_update_fails_on_misshapen_file day1 [truckV1]
              (mkWorld None {[getGpxFilename "20250501" := NoMetadata [featureV1]]} [] []))
    as (Hnull & Hfiles & _).
  - right. exists [featureV1]. vm_compute. reflexivity.
  - split; [exact Hnull | exact Hfiles].
Defined.



End TrackScenarios.

(** ** Authentication *)

Section AuthFacts.

Lemma firstTruthy_truthy (operands : list (option json)) (t : json) :
  firstTruthy operands = Some t -> truthy t = true.
Proof.
  induction operands as [| [v |] rest IH]; simpl; [discriminate | | exact IH].
  destruct (truthy v) eqn:Hv; [| exact IH]. now intros [= <-].
Qed.

Lemma firstStringField_truthy (fields : list (string * json)) (t : json) :
  firstStringField fields = Some t -> truthy t = true.
Proof.
  induction fields as [| [key value] rest IH]; simpl; [discriminate |].
  destruct (negb (key =? "result")%string && negb (key =? "message")%string
            && truthy value
            && match value with JStr _ => true | _ => false end) eqn:Hc;
    [| exact IH].
  intros [= <-]. apply andb_true_iff in Hc as [Hc _].
  now apply andb_true_iff in Hc as [_ Hc].
Qed.

(** Whatever [tokenOf] finds passes the test [!token]. *)
Lemma tokenOf_truthy (tokenData t : json) :
  tokenOf tokenData = Some t -> truthy t = true.
Proof.
  unfold tokenOf.
  destruct (firstTruthy [member (Some tokenData) "token"; _; _; _]) as [t1 |] eqn:H1.
  { intros [= <-]. now apply firstTruthy_truthy in H1. }
  destruct (truthyU (member (Some tokenData) "data")).
  - destruct (firstTruthy [member (member (Some tokenData) "data") "token"; _; _])
      as [t2 |] eqn:H2.
    { intros [= <-]. now apply firstTruthy_truthy in H2. }
    destruct tokenData; try (destruct (isOne _); discriminate).
    + destruct (truthy (JStr s)) eqn:Hs; [now intros [= <-] |].
      destruct (isOne _); discriminate.
    + destruct (isOne _); [apply firstStringField_truthy | discriminate].
  - destruct tokenData; try (destruct (isOne _); discriminate).
    + destruct (truthy (JStr s)) eqn:Hs; [now intros [= <-] |].
      destruct (isOne _); discriminate.
    + destruct (isOne _); [apply firstStringField_truthy | discriminate].
Qed.

(** Where a token returned by the loop comes from. *)
Lemma tryVariations_token (server : json -> response) (variations : list json) (t : json) :
  tryVariations server variations = inl t ->
  exists requestBody,
    In requestBody variations /\ grants (server requestBody) t.
Proof.
  induction variations as [| requestBody rest IH]; [discriminate |].
  cbn [tryVariations]. intros H.
  assert (Hnext : forall e,
             match rest with [] => inr e | _ :: _ => tryVariations server rest end
             = inl t ->
             exists b, In b (requestBody :: rest) /\ grants (server b) t).
  { intros e He. destruct rest as [| r rest']; [discriminate |].
    destruct (IH He) as (b & Hb & Hg). exists b. split; [now right | exact Hg]. }
  destruct (server requestBody) as [| | tokenData] eqn:Hs; [discriminate | eauto |].
  assert (Hbody : (if isZero (member (Some tokenData) "result")
                   then match rest with
                        | [] => inr ServerRefused
                        | _ :: _ => tryVariations server rest
                        end
                   else match tokenOf tokenData with
                        | Some token => inl token
                        | None => match rest with
                                  | [] => inr TokenMissing
                                  | _ :: _ => tryVariations server rest
                                  end
                        end) = inl t)
    by (destruct tokenData; [discriminate | exact H ..]).
  clear H. destruct (isZero (member (Some tokenData) "result")) eqn:Hz; [eauto |].
  destruct (tokenOf tokenData) as [token |] eqn:Htok; [| eauto].
  injection Hbody as ->. exists requestBody. split; [now left |].
  rewrite Hs. now exists tokenData.
Qed.

(** X15.  The token that [generateAccessToken] returns was read from the
    answer to one of the six request bodies, an answer whose [result] is not
    0; and it is truthy. *)
Theorem auth_token_comes_from_an_answer (server : json -> response) (t : json) :
  generateAccessToken server = inl t ->
  truthy t = true
  /\ exists requestBody,
       In requestBody requestVariations /\ grants (server requestBody) t.
Proof.
  intros H. apply tryVariations_token in H as (b & Hb & Hg).
  split; [| now exists b].
  destruct Hg as (tokenData & _ & _ & Htok). now apply tokenOf_truthy in Htok.
Qed.

Lemma auth_token_comes_from_an_answer_witness :
  truthy (JStr "abc") = true
  /\ exists requestBody,
       In requestBody requestVariations
       /\ grants ((fun _ => Body (JObj [("result", JNum (Finite 1 0));
                                         ("auth-code", JStr "abc")])) requestBody)
                 (JStr "abc").
Proof.
  apply (auth_token_comes_from_an_answer
           (fun _ => Body (JObj [("result", JNum (Finite 1 0));
                                 ("auth-code", JStr "abc")]))).
  vm_compute. reflexivity.
Defined.

(** The error with which the loop ends. *)
Lemma tryVariations_error (server : json -> response) (variations : list json)
    (e : authError) :
  tryVariations server variations = inr e ->
  match e with
  | RequestThrew =>
      exists requestBody, In requestBody variations
                          /\ (server requestBody = Threw
                              \/ server requestBody = Body JNull)
  | HttpFailed =>
      exists requestBody, last variations = Some requestBody
                          /\ server requestBody = NotOk
  | ServerRefused =>
      exists requestBody tokenData,
        last variations = Some requestBody
        /\ server requestBody = Body tokenData
        /\ isZero (member (Some tokenData) "result") = true
  | TokenMissing =>
      exists requestBody tokenData,
        last variations = Some requestBody
        /\ server requestBody = Body tokenData
        /\ tokenOf tokenData = None
  | AllFailed => variations = []
  end.
Proof.
  induction variations as [| requestBody rest IH]; [now intros [= <-] |].
  cbn [tryVariations]. intros H.
  assert (Hlast : rest = [] -> last (requestBody :: rest) = Some requestBody)
    by now intros ->.
  assert (Hcons : forall r rest', rest = r :: rest' ->
             last (requestBody :: rest) = last rest)
    by now intros r rest' ->.
  assert (Hnext : forall e0,
             match rest with [] => inr e0 | _ :: _ => tryVariations server rest end
             = inr e ->
             (rest = [] /\ e = e0)
             \/ (exists r rest', rest = r :: rest' /\ tryVariations server rest = inr e)).
  { intros e0 He. destruct rest as [| r rest']; [left | right; eauto].
    split; [reflexivity | congruence]. }
  assert (Hrec : forall r rest', rest = r :: rest' -> tryVariations server rest = inr e ->
             match e with
             | RequestThrew =>
                 exists b, In b (requestBody :: rest)
                           /\ (server b = Threw \/ server b = Body JNull)
             | HttpFailed =>
                 exists b, last (requestBody :: rest) = Some b /\ server b = NotOk
             | ServerRefused =>
                 exists b td, last (requestBody :: rest) = Some b
                              /\ server b = Body td
                              /\ isZero (member (Some td) "result") = true
             | TokenMissing =>
                 exists b td, last (requestBody :: rest) = Some b
                              /\ server b = Body td /\ tokenOf td = None
             | AllFailed => requestBody :: rest = []
             end).
  { intros r rest' Hr He. specialize (IH He). rewrite (Hcons _ _ Hr).
    destruct e; try exact IH.
    - destruct IH as (b & Hb & Hs). exists b. split; [now right | exact Hs].
    - subst rest. discriminate. }
  destruct (server requestBody) as [| | tokenData] eqn:Hs.
  - injection H as <-. exists requestBody. split; [now left | now left].
  - destruct (Hnext _ H) as [[Hnil ->] | (r & rest' & Hr & He)];
      [| exact (Hrec _ _ Hr He)].
    exists requestBody. split; [now apply Hlast | exact Hs].
  - assert (Hnull : tokenData = JNull \/ tokenData <> JNull)
      by (destruct tokenData; [now left | right; discriminate ..]).
    destruct Hnull as [-> | Hnn].
    { injection H as <-. exists requestBody. split; [now left | now right]. }
    assert (Hbody : (if isZero (member (Some tokenData) "result")
                     then match rest with
                          | [] => inr ServerRefused
                          | _ :: _ => tryVariations server rest
                          end
                     else match tokenOf tokenData with
                          | Some token => inl token
                          | None => match rest with
                                    | [] => inr TokenMissing
                                    | _ :: _ => tryVariations server rest
                                    end
                          end) = inr e)
      by (destruct tokenData; [now destruct Hnn | exact H ..]).
    clear H. destruct (isZero (member (Some tokenData) "result")) eqn:Hz.
    + destruct (Hnext _ Hbody) as [[Hnil ->] | (r & rest' & Hr & He)];
      [| exact (Hrec _ _ Hr He)].
      exists requestBody, tokenData. split; [now apply Hlast | now split].
    + destruct (tokenOf tokenData) as [token |] eqn:Htok; [discriminate |].
      destruct (Hnext _ Hbody) as [[Hnil ->] | (r & rest' & Hr & He)];
      [| exact (Hrec _ _ Hr He)].
      exists requestBody, tokenData. split; [now apply Hlast | now split].
Qed.

(** X16.  How [generateAccessToken] fails.  It rethrows an exception of a
    request (or of reading a [null] body) at once; otherwise the error is
    that of the answer to the last request body, [{User, Pass}].  The final
    [All authentication attempts failed] is never thrown. *)
Theorem auth_failure_is_of_last_request (server : json -> response) :
  let lastBody := JObj [("User", JStr API_USERNAME); ("Pass", JStr API_PASSWORD)] in
  match generateAccessToken server with
  | inl _ => True
  | inr RequestThrew =>
      exists requestBody, In requestBody requestVariations
                          /\ (server requestBody = Threw
                              \/ server requestBody = Body JNull)
  | inr HttpFailed => server lastBody = NotOk
  | inr ServerRefused =>
      exists tokenData, server lastBody = Body tokenData
                        /\ isZero (member (Some tokenData) "result") = true
  | inr TokenMissing =>
      exists tokenData, server lastBody = Body tokenData
                        /\ tokenOf tokenData = None
  | inr AllFailed => False
  end.
Proof.
  intros lastBody. unfold generateAccessToken.
  destruct (tryVariations server requestVariations) as [t | e] eqn:H; [exact I |].
  apply tryVariations_error in H. destruct e.
  - exact H.
  - destruct H as (b & [= <-] & Hs). exact Hs.
  - destruct H as (b & td & [= <-] & Hs). now exists td.
  - destruct H as (b & td & [= <-] & Hs). now exists td.
  - discriminate.
Qed.

(** The loop moves past the answers that make it move on. *)
Lemma tryVariations_moves_on (server : json -> response) (earlier : list json) :
  forall later,
    later <> [] ->
    Forall (fun b => movesOn (server b) = true) earlier ->
    tryVariations server (earlier ++ later) = tryVariations server later.
Proof.
  induction earlier as [| b rest IH]; intros later Hne Hsoft; [reflexivity |].
  inversion Hsoft as [| x l Hb Hrest]; subst.
  rewrite <- (IH later Hne Hrest).
  change ((b :: rest) ++ later) with (b :: (rest ++ later)).
  cbn [tryVariations].
  assert (Hcons : exists r rest', rest ++ later = r :: rest').
  { destruct rest as [| r rest']; [| now exists r, (rest' ++ later)].
    destruct later as [| r later']; [now destruct Hne | now exists r, later']. }
  destruct Hcons as (r & rest' & Hcons).
  unfold movesOn in Hb.
  destruct (server b) as [| | tokenData]; [discriminate | now rewrite Hcons |].
  destruct tokenData; try discriminate;
    (destruct (isZero _); [now rewrite Hcons |]);
    (destruct (tokenOf _); [discriminate | now rewrite Hcons]).
Qed.

(** X17.  The first answer that holds a token decides: when the answers to
    the request bodies before it all make the loop move on, the token of
    that answer is returned, whatever the later request bodies would be
    answered. *)
Theorem auth_first_token_wins (server : json -> response)
    (earlier : list json) (requestBody : json) (later : list json) (t : json) :
  requestVariations = (earlier ++ requestBody :: later)%list ->
  Forall (fun b => movesOn (server b) = true) earlier ->
  grants (server requestBody) t ->
  generateAccessToken server = inl t.
Proof.
  intros Hsplit Hsoft (tokenData & Hs & Hz & Htok).
  unfold generateAccessToken. rewrite Hsplit.
  rewrite tryVariations_moves_on by (discriminate || exact Hsoft).
  cbn [tryVariations]. rewrite Hs.
  destruct tokenData; [vm_compute in Htok; discriminate | ..];
    now rewrite Hz, Htok.
Qed.

Lemma auth_first_token_wins_witness :
  generateAccessToken userPassServer = inl (JStr "abc").
Proof.
  apply (auth_first_token_wins userPassServer
           [JObj [("Username", JStr API_USERNAME); ("password", JStr API_PASSWORD)];
            JObj [("username", JStr API_USERNAME); ("password", JStr API_PASSWORD)];
            JObj [("Username", JStr API_USERNAME); ("Password", JStr API_PASSWORD)];
            JObj [("username", JStr API_USERNAME); ("Password", JStr API_PASSWORD)]]
           (JObj [("user", JStr API_USERNAME); ("pass", JStr API_PASSWORD)])
           [JObj [("User", JStr API_USERNAME); ("Pass", JStr API_PASSWORD)]]
           (JStr "abc")).
  - reflexivity.
  - repeat constructor.
  - eexists. split; [reflexivity |]. split; reflexivity.
Defined.

End AuthFacts.

(** ** The runs: what a fetch leaves behind *)

Section RunFacts.

Lemma updateDailyGpxTracks_parsed (e : trackEnv) (trucks : list json) (w : world) :
  parsedFireTrucks (snd (updateDailyGpxTracks e trucks w)) = parsedFireTrucks w.
Proof.
  unfold updateDailyGpxTracks.
  destruct (loadTracks e (trackFiles w)) as [[t | fs |] ev]; [| | reflexivity];
    destruct (forEachTruck _ _ _ _); reflexivity.
Qed.

(** A run that exits has written no file. *)
Lemma fetchAndCacheDataFrom_exit_files (locate : json -> json * logEvent)
    (e : fetchEnv) (f : fetched) (w w' : world) :
  fetchAndCacheDataFrom locate e f w = Exit1 w' ->
  snapshotFile w' = snapshotFile w /\ trackFiles w' = trackFiles w.
Proof.
  unfold fetchAndCacheDataFrom. destruct f as [| jsonData].
  { intros [= <-]. now split. }
  destruct (locate jsonData) as [rows located].
  destruct rows; try (intros [= <-]; now split).
  destruct (normalizeRows items) as [[rows' |] warnings].
  - destruct (updateDailyGpxTracks _ _ _). discriminate.
  - intros [= <-]. now split.
Qed.

(** X18.  When [fetchAndCacheData] of [fetch-data.js] ends in
    [process.exit(1)], the snapshot file and every track file are as they
    were before the call. *)
Theorem fetch_exit_leaves_files (e : fetchEnv) (f : fetched) (w w' : world) :
  fetchAndCacheDataV1 e f w = Exit1 w' ->
  snapshotFile w' = snapshotFile w /\ trackFiles w' = trackFiles w.
Proof. apply fetchAndCacheDataFrom_exit_files. Qed.

Lemma fetch_exit_leaves_files_witness :
  snapshotFile (mkWorld (snapshotFile worldV1) (trackFiles worldV1) []
                        [LogParsedRecords; LogFatal])
  = snapshotFile (startWorld (snapshotFile worldV1) (trackFiles worldV1))
  /\ trackFiles (mkWorld (snapshotFile worldV1) (trackFiles worldV1) []
                         [LogParsedRecords; LogFatal])
     = trackFiles (startWorld (snapshotFile worldV1) (trackFiles worldV1)).
Proof.
  apply (fetch_exit_leaves_files day1Fetch (Fetched noDataPayload)
           (startWorld (snapshotFile worldV1) (trackFiles worldV1))).
  reflexivity.
Defined.

(** X19.  When the run of [index.js] ends in [process.exit(1)], be it for
    want of a token, for a failed data request or for rows it cannot walk,
    the snapshot file and every track file are as they were. *)
Theorem index_run_exit_leaves_files (tokenServer : json -> response)
    (dataServer : json -> fetched) (e : fetchEnv) (w w' : world) :
  fetchAndCacheDataIndex tokenServer dataServer e w = Exit1 w' ->
  snapshotFile w' = snapshotFile w /\ trackFiles w' = trackFiles w.
Proof.
  unfold fetchAndCacheDataIndex.
  destruct (generateAccessToken tokenServer) as [token | err].
  - apply fetchAndCacheDataFrom_exit_files.
  - intros [= <-]. now split.
Qed.

Lemma index_run_exit_leaves_files_witness :
  snapshotFile (logTo worldV1 [LogFatal]) = snapshotFile worldV1
  /\ trackFiles (logTo worldV1 [LogFatal]) = trackFiles worldV1.
Proof.
  apply (index_run_exit_leaves_files (fun _ => NotOk)
           (fun _ => Fetched mumbaiPayload) day1Fetch worldV1).
  reflexivity.
Defined.

Lemma isValidGoaCoordinate_truthy (v : option json) (type : coordType) :
  isValidGoaCoordinate v type = true -> truthyU v = true.
Proof.
  destruct v as [v |]; [| discriminate]. cbn [isValidGoaCoordinate truthyU].
  now destruct (truthy v).
Qed.

Lemma isValidGoaCoordinate_number (n : jsnum) :
  (isValidGoaCoordinate (Some (JNum n)) TLat = true -> inLatRange n = true)
  /\ (isValidGoaCoordinate (Some (JNum n)) TLng = true -> inLngRange n = true).
Proof.
  cbn [isValidGoaCoordinate].
  split; (destruct (negb (truthy (JNum n))); [discriminate |]);
    (destruct (isNaN n); [discriminate | trivial]).
Qed.

(** A row that the loop has normalised and the filter accepts is an object
    with numbers of the bounding box in Latitude and Longitude. *)
Lemma normalizeRow_valid (r r' : json) :
  normalizeRow r = Some r' -> rowIsValid r' = true ->
  exists fields, r' = JObj fields /\ hasBoxedPosition fields.
Proof.
  destruct r; cbn [normalizeRow]; try discriminate;
    try (intros [= <-]; unfold rowIsValid; cbn [getProp isValidGoaCoordinate andb];
         discriminate).
  intros [= <-]. unfold rowIsValid. cbn [getProp]. intros Hvalid.
  apply andb_true_iff in Hvalid as [Hlat Hlng].
  eexists. split; [reflexivity |].
  set (fields1 := if truthyU (getField fields "Latitude")
                  then setField fields "Latitude"
                         (JNum (parseFloatU (getField fields "Latitude")))
                  else fields) in *.
  assert (H1 : exists lat, getField fields1 "Latitude" = Some (JNum lat)
                           \/ truthyU (getField fields1 "Latitude") = false).
  { subst fields1. destruct (truthyU (getField fields "Latitude")) eqn:Ht.
    - eexists. left. apply getField_setField_eq.
    - exists NaN. now right. }
  destruct H1 as [lat H1].
  destruct (truthyU (getField fields1 "Longitude")) eqn:Ht2.
  - rewrite getField_setField_ne in Hlat by discriminate.
    rewrite getField_setField_eq in Hlng.
    destruct H1 as [H1 | H1].
    + rewrite H1 in Hlat.
      exists lat, (parseFloatU (getField fields1 "Longitude")).
      split; [rewrite getField_setField_ne by discriminate; exact H1 |].
      split; [apply getField_setField_eq |].
      split; [now apply isValidGoaCoordinate_number
             | now apply isValidGoaCoordinate_number].
    + apply isValidGoaCoordinate_truthy in Hlat. congruence.
  - apply isValidGoaCoordinate_truthy in Hlng. congruence.
Qed.

Lemma normalizeRows_each (items : list json) :
  forall rows' warnings,
    normalizeRows items = (Some rows', warnings) ->
    Forall (fun r' => exists r, In r items /\ normalizeRow r = Some r') rows'.
Proof.
  induction items as [| r rest IH]; intros rows' warnings; cbn [normalizeRows].
  - intros [= <- _]. constructor.
  - destruct (normalizeRow r) as [r1 |] eqn:Hr; [| discriminate].
    destruct (normalizeRows rest) as [[rest' |] ws]; cbn [fmap option_fmap option_map];
      [| discriminate].
    intros [= <- _]. constructor.
    + exists r. split; [now left | exact Hr].
    + eapply Forall_impl; [apply (IH rest' ws eq_refl) |].
      intros x (r0 & Hin & H0). exists r0. split; [now right | exact H0].
Qed.

(** X20.  The rows that a fetch returns are objects whose Latitude and
    Longitude are numbers (no longer the strings of the feed) inside the
    bounding box; so are the coordinates of the snapshot it writes, one
    Point per returned row. *)
Theorem fetched_rows_hold_boxed_numbers (locate : json -> json * logEvent)
    (e : fetchEnv) (f : fetched) (w w' : world) (rows : list json) :
  fetchAndCacheDataFrom locate e f w = Returned rows w' ->
  Forall (fun r => exists fields, r = JObj fields /\ hasBoxedPosition fields) rows
  /\ exists s,
       snapshotFile w' = Some s
       /\ snapshotCount s = length rows
       /\ snapshotFeatures s = List.map toPointFeature rows.
Proof.
  unfold fetchAndCacheDataFrom. destruct f as [| jsonData]; [discriminate |].
  destruct (locate jsonData) as [rs located].
  destruct rs; try discriminate.
  destruct (normalizeRows items) as [[rows' |] warnings] eqn:Hnorm; [| discriminate].
  match goal with
  | |- context [updateDailyGpxTracks ?te ?tr ?w1] =>
      pose proof (updateDailyGpxTracks_snapshot te tr w1) as Hsnap;
      destruct (updateDailyGpxTracks te tr w1) as [path w2]
  end.
  intros [= <- <-]. cbn [snd snapshotFile] in Hsnap. split.
  - apply normalizeRows_each in Hnorm.
    apply List.Forall_forall. intros r Hr. apply List.filter_In in Hr as [Hin Hvalid].
    rewrite List.Forall_forall in Hnorm.
    destruct (Hnorm r Hin) as (r0 & _ & Hr0).
    exact (normalizeRow_valid r0 r Hr0 Hvalid).
  - eexists. split; [exact Hsnap |]. split; reflexivity.
Qed.

Lemma fetched_rows_hold_boxed_numbers_witness :
  Forall (fun r => exists fields, r = JObj fields /\ hasBoxedPosition fields)
         (rowsOf (fetchAndCacheData day1Fetch (Fetched (JArr [truckV1])) emptyWorld))
  /\ exists s,
       snapshotFile
         (worldOf (fetchAndCacheData day1Fetch (Fetched (JArr [truckV1])) emptyWorld))
       = Some s
       /\ snapshotCount s
          = length (rowsOf (fetchAndCacheData day1Fetch (Fetched (JArr [truckV1]))
                              emptyWorld))
       /\ snapshotFeatures s
          = List.map toPointFeature
              (rowsOf (fetchAndCacheData day1Fetch (Fetched (JArr [truckV1]))
                         emptyWorld)).
Proof.
  apply (fetched_rows_hold_boxed_numbers vehicleRows day1Fetch
           (Fetched (JArr [truckV1])) emptyWorld).
  vm_compute. reflexivity.
Defined.

(** A body in which no rows are located: the run returns no row, writes the
    snapshot of count 0 and sets [parsedFireTrucks] to the empty array. *)
Lemma no_rows_run (locate : json -> json * logEvent) (e : fetchEnv)
    (jsonData : json) (w : world) (located : logEvent) :
  locate jsonData = (JArr [], located) ->
  exists w',
    fetchAndCacheDataFrom locate e (Fetched jsonData) w = Returned [] w'
    /\ snapshotFile w'
       = Some (mkSnapshot "FeatureCollection" (snapshotTime e) sourceLabel 0 [])
    /\ parsedFireTrucks w' = [].
Proof.
  intros Hloc. unfold fetchAndCacheDataFrom. rewrite Hloc.
  cbn [normalizeRows List.filter].
  match goal with
  | |- context [updateDailyGpxTracks ?te ?tr ?w1] =>
      pose proof (updateDailyGpxTracks_snapshot te tr w1) as Hsnap;
      pose proof (updateDailyGpxTracks_parsed te tr w1) as Hparsed;
      destruct (updateDailyGpxTracks te tr w1) as [path w2]
  end.
  eexists. split; [reflexivity |]. split; [exact Hsnap | exact Hparsed].
Qed.

Lemma rootVehicleData_absent (jsonData : json) :
  truthyU (member (member (Some jsonData) "root") "VehicleData") = false ->
  rootVehicleData jsonData = (JArr [], LogNoVehicleData).
Proof.
  intros Hroot. unfold rootVehicleData. rewrite Hroot. now rewrite !andb_false_r.
Qed.

(** X21.  A body of [index.js] with nothing truthy at [root.VehicleData] and
    at [data], and which is no array: the run returns no row, the snapshot
    written has count 0 and no feature, and [parsedFireTrucks] is empty. *)
Theorem no_vehicle_data_gives_empty_snapshot (e : fetchEnv) (jsonData : json)
    (w : world) :
  truthyU (member (member (Some jsonData) "root") "VehicleData") = false ->
  isArray jsonData = false ->
  truthyU (member (Some jsonData) "data") = false ->
  exists w',
    fetchAndCacheData e (Fetched jsonData) w = Returned [] w'
    /\ snapshotFile w'
       = Some (mkSnapshot "FeatureCollection" (snapshotTime e) sourceLabel 0 [])
    /\ parsedFireTrucks w' = [].
Proof.
  intros Hroot Harr Hdata.
  apply (no_rows_run vehicleRows e jsonData w LogNoVehicleData).
  now apply vehicleRows_absent.
Qed.

Lemma no_vehicle_data_gives_empty_snapshot_witness :
  exists w',
    fetchAndCacheData day1Fetch
      (Fetched (JObj [("result", JNum (Finite 0 0)); ("data", JStr EmptyString)]))
      worldV1
    = Returned [] w'
    /\ snapshotFile w'
       = Some (mkSnapshot "FeatureCollection" (snapshotTime day1Fetch) sourceLabel 0 [])
    /\ parsedFireTrucks w' = [].
Proof.
  apply (no_vehicle_data_gives_empty_snapshot day1Fetch
           (JObj [("result", JNum (Finite 0 0)); ("data", JStr EmptyString)]) worldV1);
    reflexivity.
Defined.

(** X22.  The two revisions agree on the documented shape.  On a body with a
    truthy [root.VehicleData], and on a body that is no array and has
    nothing truthy at [data], [fetchAndCacheData] of [index.js] does what
    that of [fetch-data.js] does. *)
Theorem revisions_agree_on_root_vehicle_data (e : fetchEnv) (jsonData : json)
    (w : world) :
  truthyU (member (member (Some jsonData) "root") "VehicleData") = true
  \/ (isArray jsonData = false /\ truthyU (member (Some jsonData) "data") = false) ->
  fetchAndCacheData e (Fetched jsonData) w
  = fetchAndCacheDataV1 e (Fetched jsonData) w.
Proof.
  intros H.
  assert (Hloc : vehicleRows jsonData = rootVehicleData jsonData).
  { destruct (truthyU (member (member (Some jsonData) "root") "VehicleData")) eqn:Hroot.
    - unfold vehicleRows, rootVehicleData. rewrite Hroot.
      assert (Hj : truthy jsonData && truthyU (member (Some jsonData) "root") = true).
      { destruct jsonData; try discriminate. cbn [truthy andb member] in *.
        destruct (getField fields "root") as [root |]; [| discriminate].
        destruct root; try discriminate. reflexivity. }
      now rewrite Hj.
    - destruct H as [H | [Harr Hdata]]; [discriminate |].
      rewrite vehicleRows_absent, rootVehicleData_absent by assumption. reflexivity. }
  unfold fetchAndCacheData, fetchAndCacheDataV1, fetchAndCacheDataFrom.
  now rewrite Hloc.
Qed.

Lemma revisions_agree_on_root_vehicle_data_witness :
  fetchAndCacheData day1Fetch (Fetched mumbaiPayload) worldV1
  = fetchAndCacheDataV1 day1Fetch (Fetched mumbaiPayload) worldV1.
Proof.
  apply (revisions_agree_on_root_vehicle_data day1Fetch mumbaiPayload worldV1).
  left. reflexivity.
Defined.

Lemma getField_filter_out (p : string * json -> bool) (r : row) (k : string) :
  (forall v, p (k, v) = false) -> getField (List.filter p r) k = None.
Proof.
  intros Hp. induction r as [| [k' v'] rest IH]; cbn [List.filter]; [reflexivity |].
  destruct (p (k', v')) eqn:Hkeep; [| exact IH].
  cbn [getField]. destruct (String.eqb_spec k' k) as [-> | _]; [| exact IH].
  now rewrite Hp in Hkeep.
Qed.

Lemma toPointFeature_boxed (r : row) :
  hasBoxedPosition r -> boxedPoint (toPointFeature (JObj r)).
Proof.
  intros (lat & lng & Hlat & Hlng & Hin1 & Hin2). exists lat, lng.
  cbn [toPointFeature pointCoordinates pointProperties]. rewrite Hlat, Hlng.
  split; [reflexivity |]. split; [exact Hin1 |]. split; [exact Hin2 |].
  split; apply getField_filter_out; intros v; cbn [fst]; reflexivity.
Qed.

Lemma parseFiretruckCSV_boxed (csvText : string) :
  Forall hasBoxedPosition (parseFiretruckCSV csvText).
Proof.
  unfold parseFiretruckCSV.
  destruct (String.eqb csvText EmptyString); [constructor |].
  rewrite parseBlocks_alternates. apply rowsOfPairs_boxed.
Qed.

(** X23.  The CSV revision never exits once the text has arrived: whatever
    the text, it returns after writing a snapshot whose count is the number
    of its features, each a Point with numbers of the bounding box as
    coordinates and with Latitude and Longitude taken out of its
    properties. *)
Theorem csv_run_writes_boxed_snapshot (e : fetchEnv) (csvText : string) (w : world) :
  exists w' s,
    CsvRun.fetchAndCacheData e (CsvRun.Text csvText) w = Returned tt w'
    /\ snapshotFile w' = Some s
    /\ snapshotCount s = length (snapshotFeatures s)
    /\ Forall boxedPoint (snapshotFeatures s).
Proof.
  unfold CsvRun.fetchAndCacheData.
  match goal with
  | |- context [updateDailyGpxTracks ?te ?tr ?w1] =>
      pose proof (updateDailyGpxTracks_snapshot te tr w1) as Hsnap;
      destruct (updateDailyGpxTracks te tr w1) as [path w2]
  end.
  cbn [snd snapshotFile] in Hsnap.
  do 2 eexists. split; [reflexivity |]. split; [exact Hsnap |].
  cbn [snapshotCount snapshotFeatures]. unfold CsvRun.rowsToGeoJSON.
  split; [now rewrite length_map |].
  apply Forall_map. eapply Forall_impl; [apply parseFiretruckCSV_boxed |].
  intros r Hr. now apply toPointFeature_boxed.
Qed.

(** X24.  With rows in [parsedFireTrucks], [createDailyTracks] does not
    fetch (its result does not depend on what a fetch would deliver), does
    not exit, and leaves the snapshot file as it is. *)
Theorem tracks_reuse_rows_in_memory (eFetch eFetch' : fetchEnv) (f f' : fetched)
    (e : trackEnv) (w : world) :
  parsedFireTrucks w <> [] ->
  createDailyTracks eFetch f e w = createDailyTracks eFetch' f' e w
  /\ exits (createDailyTracks eFetch f e w) = false
  /\ snapshotFile (worldOf (createDailyTracks eFetch f e w)) = snapshotFile w.
Proof.
  intros Hrows. unfold createDailyTracks.
  assert (Hlen : (0 <? length (parsedFireTrucks w))%nat = true).
  { destruct (parsedFireTrucks w); [now destruct Hrows | reflexivity]. }
  rewrite Hlen. split; [reflexivity |].
  pose proof (updateDailyGpxTracks_snapshot e (parsedFireTrucks w) w) as Hsnap.
  destruct (updateDailyGpxTracks e (parsedFireTrucks w) w) as [path w2].
  split; [reflexivity | exact Hsnap].
Qed.

Lemma tracks_reuse_rows_in_memory_witness :
  createDailyTracks day1Fetch FetchFailed day1
    (mkWorld None ∅ [truckV1] [])
  = createDailyTracks day1Fetch (Fetched mumbaiPayload) day1
      (mkWorld None ∅ [truckV1] [])
  /\ exits (createDailyTracks day1Fetch FetchFailed day1
              (mkWorld None ∅ [truckV1] [])) = false
  /\ snapshotFile (worldOf (createDailyTracks day1Fetch FetchFailed day1
                              (mkWorld None ∅ [truckV1] [])))
     = snapshotFile (mkWorld None ∅ [truckV1] []).
Proof.
  apply (tracks_reuse_rows_in_memory day1Fetch day1Fetch FetchFailed
           (Fetched mumbaiPayload) day1 (mkWorld None ∅ [truckV1] [])).
  discriminate.
Defined.

(** X25.  A second fetch after an empty one.  When the first fetch of
    [main] finds nothing truthy at [root.VehicleData], it returns with
    [parsedFireTrucks] empty, so [createDailyTracks] fetches again: [main]
    then exits exactly when that second fetch does, although the first one
    has written its snapshot. *)
Theorem main_fetches_again_after_empty_fetch (e1 e2 : fetchEnv) (jsonData : json)
    (f2 : fetched) (e : trackEnv) (w : world) :
  truthyU (member (member (Some jsonData) "root") "VehicleData") = false ->
  exits (main e1 (Fetched jsonData) e2 f2 e w)
  = exits (fetchAndCacheDataV1 e2 f2 w).
Proof.
  intros Hroot. unfold main.
  destruct (no_rows_run rootVehicleData e1 jsonData w LogNoVehicleData
              (rootVehicleData_absent _ Hroot)) as (w1 & Hrun & _ & Hparsed).
  unfold fetchAndCacheDataV1 at 1. rewrite Hrun.
  rewrite createDailyTracks_exits, Hparsed. cbn [length Nat.ltb Nat.leb].
  apply fetchAndCacheDataFrom_exits.
Qed.

Lemma main_fetches_again_after_empty_fetch_witness :
  exits (main day1Fetch (Fetched emptyPayload) day1Fetch FetchFailed day1 worldV1)
  = exits (fetchAndCacheDataV1 day1Fetch FetchFailed worldV1).
Proof.
  apply (main_fetches_again_after_empty_fetch day1Fetch day1Fetch emptyPayload
           FetchFailed day1 worldV1).
  reflexivity.
Defined.

End RunFacts.

(** ** The range check *)

Section ValidatorFacts.

(** No number lies in both ranges. *)
Lemma ranges_disjoint (n : jsnum) : inLatRange n && inLngRange n = false.
Proof.
  destruct n as [| s | m e]; [reflexivity | now destruct s |].
  unfold inLatRange, inLngRange, numGe, latMin, latMax, lngMin, lngMax, numLe, decCompare.
  rewrite (Z.min_comm (-1) e).
  assert (Hp : (0 < 10 ^ (-1 - Z.min e (-1)))%Z) by (apply pow10_pos; lia).
  set (p := (10 ^ (-1 - Z.min e (-1)))%Z) in *.
  set (a := (m * 10 ^ (e - Z.min e (-1)))%Z).
  destruct (Z.compare_spec a (160 * p)) as [H1 | H1 | H1];
    destruct (Z.compare_spec (735 * p) a) as [H2 | H2 | H2];
    rewrite ?andb_false_r, ?andb_false_l; try reflexivity; lia.
Qed.

(** X26.  Without a type, [isValidGoaCoordinate] accepts a value exactly
    when it accepts it as a latitude or as a longitude; and no value is
    accepted as both, the two ranges being disjoint. *)
Theorem goa_coordinate_is_lat_or_lng_never_both (value : option json) :
  isValidGoaCoordinate value TOther
  = isValidGoaCoordinate value TLat || isValidGoaCoordinate value TLng
  /\ isValidGoaCoordinate value TLat && isValidGoaCoordinate value TLng = false.
Proof.
  destruct value as [v |]; [| now split]. cbn [isValidGoaCoordinate].
  destruct (negb (truthy v)); [now split |].
  destruct (isNaN _); [now split |].
  split; [reflexivity | apply ranges_disjoint].
Qed.

End ValidatorFacts.
